(** * gpu-idle-exporter: the sample merger and the idle tracker

    A shallow embedding of [internal/collector/collector.go]
    ([Collector.collectProcesses]) and of the [idle] package
    ([Tracker.Update]), followed by the properties of the idle-state
    tracking engine.

    Conventions.
    - Go's unsigned integers ([uint32], [uint64]) are [N]; [int] is [Z].
      Neither function does arithmetic on them, only comparisons and copies.
    - A [time.Time] is an instant on one time line, counted in nanoseconds
      as a [Z]; the zero value of the type is the instant [0].  A
      [time.Duration] is a 64-bit signed count of nanoseconds, and
      [Time.Sub] saturates at its two ends, as the Go library documents.
    - A Go [map] is a [gmap]; reading a missing key gives the zero value of
      the element type, which is written out with [default].
    - The tracker's map holds one pointer per key, each to a record
      allocated for that key alone, so the map of records is a [gmap] of
      values and an update through the pointer is an insertion.
    - [log.Printf] calls write diagnostics only and are left out. *)

From Stdlib Require Import DecimalString DecimalZ DecimalN.
From stdpp Require Import gmap strings list fin_maps.

Local Open Scope Z_scope.

(** ** Time *)

Module time.

Definition minDuration : Z := - 2 ^ 63.
Definition maxDuration : Z := 2 ^ 63 - 1.

Definition Second : Z := 1000000000.

(** The zero value of [time.Time]. *)
Definition zero : Z := 0.

(** [t.Sub(u)]: the duration [t - u], or the largest (smallest) duration
    when the difference does not fit. *)
Definition Sub (t u : Z) : Z :=
  let d := t - u in
  if maxDuration <? d then maxDuration
  else if d <? minDuration then minDuration
  else d.

End time.

(** ** The NVML binding, as far as [collectProcesses] reads it *)

Module nvml.

Inductive Return : Type :=
| SUCCESS
| ERROR_NOT_FOUND
| ERROR_OTHER (code : N).

#[global] Instance Return_eq_dec : EqDecision Return.
Proof. solve_decision. Defined.

Module ProcessInfo.
Record t : Type := {
  Pid : N;
  UsedGpuMemory : N
}.
End ProcessInfo.

Module ProcessUtilizationSample.
Record t : Type := {
  Pid : N;
  TimeStamp : N;
  SmUtil : N
}.
End ProcessUtilizationSample.

(** A device answers the two queries of [collectProcesses]; the second
    takes the time stamp since which samples are wanted. *)
Record Device : Type := {
  GetComputeRunningProcesses : list ProcessInfo.t * Return;
  GetProcessUtilization : N -> list ProcessUtilizationSample.t * Return
}.

End nvml.

(** ** Package collector *)

Module collector.

Import nvml.

Record ProcessSample : Type := {
  GPU : Z;
  PID : N;
  UsedMemory : N;
  SmUtil : N
}.

Record Snapshot : Type := {
  Timestamp : Z;
  Processes : list ProcessSample;
  ProcessNames : gmap N string
}.

(** [lastSampleTime map[int]uint64] *)
Record Collector : Type := {
  lastSampleTime : gmap Z N
}.

Definition New : Collector := {| lastSampleTime := ∅ |}.

(** The loop [for _, s := range utilSamples { if s.TimeStamp > maxTS
    { maxTS = s.TimeStamp } }], started at [maxTS := lastTS]. *)
Definition maxTimeStamp (lastTS : N)
    (utilSamples : list ProcessUtilizationSample.t) : N :=
  foldl (fun maxTS s =>
           if (maxTS <? ProcessUtilizationSample.TimeStamp s)%N
           then ProcessUtilizationSample.TimeStamp s
           else maxTS)
        lastTS utilSamples.

(** The loop that builds [utilMap]: [if s.SmUtil > utilMap[s.Pid]
    { utilMap[s.Pid] = s.SmUtil }]. *)
Definition buildUtilMap
    (utilSamples : list ProcessUtilizationSample.t) : gmap N N :=
  foldl (fun (utilMap : gmap N N) s =>
           if (default 0%N (utilMap !! ProcessUtilizationSample.Pid s)
               <? ProcessUtilizationSample.SmUtil s)%N
           then <[ProcessUtilizationSample.Pid s :=
                    ProcessUtilizationSample.SmUtil s]> utilMap
           else utilMap)
        ∅ utilSamples.

(** One turn of the merge loop: the sample appended for [p]. *)
Definition mergeSample (gpuIndex : Z) (utilMap : gmap N N)
    (p : ProcessInfo.t) : ProcessSample :=
  {| GPU := gpuIndex;
     PID := ProcessInfo.Pid p;
     UsedMemory := ProcessInfo.UsedGpuMemory p;
     SmUtil := default 0%N (utilMap !! ProcessInfo.Pid p) |}.

(** [collectProcesses]: the collector after the call and the samples
    returned ([nil] is the empty list). *)
Definition collectProcesses (c : Collector) (gpuIndex : Z)
    (device : Device) : Collector * list ProcessSample :=
  let '(procs, ret) := GetComputeRunningProcesses device in
  if negb (bool_decide (ret = SUCCESS)) then (c, [])
  else if (length procs =? 0)%nat then (c, [])
  else
    let lastTS := default 0%N (lastSampleTime c !! gpuIndex) in
    let '(utilSamples, _) := GetProcessUtilization device lastTS in
    let c' :=
      if (0 <? length utilSamples)%nat
      then {| lastSampleTime :=
                <[gpuIndex := maxTimeStamp lastTS utilSamples]>
                  (lastSampleTime c) |}
      else c in
    let utilMap := buildUtilMap utilSamples in
    (c', map (mergeSample gpuIndex utilMap) procs).

End collector.

(** ** Package idle *)

Module idle.

Record processKey : Type := {
  GPU : Z;
  PID : N
}.

#[global] Instance processKey_eq_dec : EqDecision processKey.
Proof. solve_decision. Defined.

#[global] Instance processKey_countable : Countable processKey.
Proof.
  refine (inj_countable' (fun k => (GPU k, PID k))
                         (fun p => {| GPU := p.1; PID := p.2 |}) _).
  by intros [].
Defined.

Record processState : Type := {
  LastActiveTime : Z;
  LastSeenTime : Z;
  FirstSeenTime : Z;
  IsIdle : bool;
  IdleSince : Z
}.

(** The exported view of one process's idle state. *)
Module ProcessIdleState.
Record t : Type := {
  GPU : Z;
  PID : N;
  ProcessName : string;
  UsedMemory : N;
  SmUtil : N;
  IsIdle : bool;
  IdleDuration : Z;
  IdleMemory : N
}.
End ProcessIdleState.

Record Tracker : Type := {
  states : gmap processKey processState;
  staleTimeout : Z
}.

Definition NewTracker : Tracker :=
  {| states := ∅; staleTimeout := 30 * time.Second |}.

(** [key := processKey{GPU: p.GPU, PID: p.PID}] *)
Definition keyOf (p : collector.ProcessSample) : processKey :=
  {| GPU := collector.GPU p; PID := collector.PID p |}.

(** The body of the loop of [Update] from the map read to the label
    [emit]: the record [st] points to when [emit] is reached, given what
    [t.states[key]] held ([None]: the key was not tracked). *)
Definition classify (now : Z) (p : collector.ProcessSample)
    (old : option processState) : processState :=
  match old with
  | None =>
      {| LastActiveTime := now;
         LastSeenTime := now;
         FirstSeenTime := now;
         IsIdle := false;
         IdleSince := time.zero |}
  | Some st =>
      if (0 <? collector.SmUtil p)%N then
        {| LastActiveTime := now;
           LastSeenTime := now;
           FirstSeenTime := FirstSeenTime st;
           IsIdle := if IsIdle st then false else IsIdle st;
           IdleSince := IdleSince st |}
      else
        {| LastActiveTime := LastActiveTime st;
           LastSeenTime := now;
           FirstSeenTime := FirstSeenTime st;
           IsIdle := if negb (IsIdle st) then true else IsIdle st;
           IdleSince := if negb (IsIdle st) then now else IdleSince st |}
  end.

(** From the label [emit] on: the view appended to [results]. *)
Definition emit (now : Z) (names : gmap N string)
    (p : collector.ProcessSample) (st : processState) : ProcessIdleState.t :=
  let idleDuration := if IsIdle st then time.Sub now (IdleSince st) else 0 in
  let idleMemory := if IsIdle st then collector.UsedMemory p else 0%N in
  {| ProcessIdleState.GPU := collector.GPU p;
     ProcessIdleState.PID := collector.PID p;
     ProcessIdleState.ProcessName := default EmptyString (names !! collector.PID p);
     ProcessIdleState.UsedMemory := collector.UsedMemory p;
     ProcessIdleState.SmUtil := collector.SmUtil p;
     ProcessIdleState.IsIdle := IsIdle st;
     ProcessIdleState.IdleDuration := idleDuration;
     ProcessIdleState.IdleMemory := idleMemory |}.

(** The variables the first loop of [Update] works on. *)
Record cycle : Type := {
  tracked : gmap processKey processState;
  seen : gset processKey;
  results : list ProcessIdleState.t
}.

(** One turn of the first loop. *)
Definition visit (now : Z) (names : gmap N string)
    (c : cycle) (p : collector.ProcessSample) : cycle :=
  let key := keyOf p in
  let st := classify now p (tracked c !! key) in
  {| tracked := <[key := st]> (tracked c);
     seen := {[key]} ∪ seen c;
     results := results c ++ [emit now names p st] |}.

(** The first loop, over [snap.Processes] in order. *)
Definition classifyAll (now : Z) (names : gmap N string)
    (ps : list collector.ProcessSample) (c : cycle) : cycle :=
  foldl (visit now names) c ps.

(** The test of the second loop:
    [!seen[key] && now.Sub(st.LastSeenTime) > t.staleTimeout]. *)
Definition stale (now timeout : Z) (sn : gset processKey)
    (key : processKey) (st : processState) : bool :=
  negb (bool_decide (key ∈ sn))
  && (timeout <? time.Sub now (LastSeenTime st)).

(** The second loop deletes the entries that pass the test; the test of an
    entry reads nothing the loop changes, so the entries left are the ones
    that fail it. *)
Definition sweep (now timeout : Z) (sn : gset processKey)
    (m : gmap processKey processState) : gmap processKey processState :=
  filter (fun kv => stale now timeout sn kv.1 kv.2 = false) m.

(** [Update]: the tracker after the call and the views returned. *)
Definition Update (t : Tracker) (snap : collector.Snapshot)
    : Tracker * list ProcessIdleState.t :=
  let now := collector.Timestamp snap in
  let c := classifyAll now (collector.ProcessNames snap)
             (collector.Processes snap)
             {| tracked := states t; seen := ∅; results := [] |} in
  ({| states := sweep now (staleTimeout t) (seen c) (tracked c);
      staleTimeout := staleTimeout t |},
   results c).

End idle.

(** ** Notions the properties are stated with *)

Module Spec.

Import idle.

(** The keys of a batch, in the order of the batch. *)
Definition keys (ps : list collector.ProcessSample) : list processKey :=
  map keyOf ps.

(** What is stored under [k] once the samples [ps] of a cycle are
    classified, given what was stored before: only the samples of key [k]
    count, each classified against the result of the one before. *)
Definition stateAfter (now : Z) (k : processKey)
    (ps : list collector.ProcessSample) (old : option processState)
    : option processState :=
  foldl (fun o p => if decide (keyOf p = k) then Some (classify now p o) else o)
        old ps.

(** The loop variables of [Update] when its first loop starts. *)
Definition start (t : Tracker) : cycle :=
  {| tracked := states t; seen := ∅; results := [] |}.

(** The loop variables of [Update] after the first [n] samples of the
    batch. *)
Definition midCycle (t : Tracker) (snap : collector.Snapshot) (n : nat)
    : cycle :=
  classifyAll (collector.Timestamp snap) (collector.ProcessNames snap)
    (take n (collector.Processes snap)) (start t).

(** The state created on a first observation at [now]. *)
Definition fresh (now : Z) : processState :=
  {| LastActiveTime := now;
     LastSeenTime := now;
     FirstSeenTime := now;
     IsIdle := false;
     IdleSince := time.zero |}.

(** [p] is the sample at index [i] of the batch and no sample before it has
    its key. *)
Definition firstAt (ps : list collector.ProcessSample) (i : nat)
    (p : collector.ProcessSample) : Prop :=
  ps !! i = Some p ∧
  ∀ j q, (j < i)%nat → ps !! j = Some q → keyOf q ≠ keyOf p.

(** [p] is the sample at index [i] of the batch and the only one with its
    key. *)
Definition onlyAt (ps : list collector.ProcessSample) (i : nat)
    (p : collector.ProcessSample) : Prop :=
  ps !! i = Some p ∧
  ∀ j q, ps !! j = Some q → keyOf q = keyOf p → j = i.

(** The tracker after a sequence of cycles. *)
Definition run (t : Tracker) (snaps : list collector.Snapshot) : Tracker :=
  foldl (fun t snap => (Update t snap).1) t snaps.

(** Cycle time stamps that never go back. *)
Fixpoint nonDecreasing (ts : list Z) : bool :=
  match ts with
  | a :: rest =>
      match rest with
      | b :: _ => (a <=? b) && nonDecreasing rest
      | [] => true
      end
  | [] => true
  end.

(** The time stamps of a sequence of cycles. *)
Definition timestamps (snaps : list collector.Snapshot) : list Z :=
  map collector.Timestamp snaps.

(** The key a view is about. *)
Definition viewKey (v : ProcessIdleState.t) : processKey :=
  {| GPU := ProcessIdleState.GPU v; PID := ProcessIdleState.PID v |}.

(** What is kept true of a tracked state across cycles: it was last seen
    no later than [hi], and if it is idle its [IdleSince] is one of the cycle
    time stamps [hist] and no later than its last-seen time. *)
Definition wellTimed (hi : Z) (hist : list Z) (st : processState) : Prop :=
  LastSeenTime st ≤ hi ∧
  (IsIdle st = true → IdleSince st ∈ hist ∧ IdleSince st ≤ LastSeenTime st).

(** The largest utilization among the samples of process [pid], [0] when
    there is none. *)
Definition maxUtil (pid : N)
    (utilSamples : list nvml.ProcessUtilizationSample.t) : N :=
  foldr N.max 0%N
    (map nvml.ProcessUtilizationSample.SmUtil
       (filter (fun s => nvml.ProcessUtilizationSample.Pid s = pid)
          utilSamples)).

(** The largest time stamp among the samples, [0] when there is none. *)
Definition maxSampleTime
    (utilSamples : list nvml.ProcessUtilizationSample.t) : N :=
  foldr N.max 0%N (map nvml.ProcessUtilizationSample.TimeStamp utilSamples).

(** The stored high-water mark of a device; a device never polled reads as
    [0], as the Go map does. *)
Definition mark (c : collector.Collector) (gpuIndex : Z) : N :=
  default 0%N (collector.lastSampleTime c !! gpuIndex).

End Spec.

(** ** The scenarios of the package's tests, as data *)

Module Example.

Import idle.

Definition GiB : N := 2 ^ 30.

Definition proc (gpu : Z) (pid mem smUtil : N) : collector.ProcessSample :=
  {| collector.GPU := gpu;
     collector.PID := pid;
     collector.UsedMemory := mem;
     collector.SmUtil := smUtil |}.

(** [makeSnapshot] of the tests: every process is named "python". *)
Definition makeSnapshot (ts : Z) (procs : list collector.ProcessSample)
    : collector.Snapshot :=
  {| collector.Timestamp := ts;
     collector.Processes := procs;
     collector.ProcessNames :=
       foldl (fun (names : gmap N string) p =>
                <[collector.PID p := "python"%string]> names) ∅ procs |}.

Definition quiet : collector.ProcessSample := proc 0 1234 GiB 0.
Definition busy : collector.ProcessSample := proc 0 1234 GiB 50.

(** Key (gpu 0, pid 1234): silent at 0 s, 5 s and 15 s, busy at 20 s. *)
Definition cycle1 : collector.Snapshot := makeSnapshot 0 [quiet].
Definition cycle2 : collector.Snapshot := makeSnapshot (5 * time.Second) [quiet].
Definition cycle3 : collector.Snapshot := makeSnapshot (15 * time.Second) [quiet].
Definition cycle4 : collector.Snapshot := makeSnapshot (20 * time.Second) [busy].

Definition after1 : Tracker := (Update NewTracker cycle1).1.
Definition after2 : Tracker := (Update after1 cycle2).1.
Definition after3 : Tracker := (Update after2 cycle3).1.

(** The view the third cycle gives: idle for ten seconds. *)
Definition view3 : ProcessIdleState.t :=
  {| ProcessIdleState.GPU := 0;
     ProcessIdleState.PID := 1234;
     ProcessIdleState.ProcessName := "python";
     ProcessIdleState.UsedMemory := GiB;
     ProcessIdleState.SmUtil := 0;
     ProcessIdleState.IsIdle := true;
     ProcessIdleState.IdleDuration := 10 * time.Second;
     ProcessIdleState.IdleMemory := GiB |}.

(** The state of the key after the third and after the second cycle. *)
Definition idleSince5 : processState :=
  {| LastActiveTime := 0;
     LastSeenTime := 15 * time.Second;
     FirstSeenTime := 0;
     IsIdle := true;
     IdleSince := 5 * time.Second |}.

Definition idleAt5 : processState :=
  {| LastActiveTime := 0;
     LastSeenTime := 5 * time.Second;
     FirstSeenTime := 0;
     IsIdle := true;
     IdleSince := 5 * time.Second |}.

(** A cycle with no process at all. *)
Definition empty (ts : Z) : collector.Snapshot := makeSnapshot ts [].

(** A cycle without the key, past the default time-out of 30 s. *)
Definition late : collector.Snapshot := empty (31 * time.Second).

(** The same process id on two devices. *)
Definition onGpu0 : collector.ProcessSample := proc 0 1234 GiB 50.
Definition onGpu1 : collector.ProcessSample := proc 1 1234 (2 * GiB) 0.

(** A batch that holds the same key twice. *)
Definition twice : collector.Snapshot := makeSnapshot 0 [quiet; quiet].

(** A device that holds a buffer of utilization samples and answers a
    query with the samples newer than the time stamp asked for, as the NVML
    call is documented to. *)
Definition deviceOf (procs : list nvml.ProcessInfo.t)
    (buffer : list nvml.ProcessUtilizationSample.t) : nvml.Device :=
  {| nvml.GetComputeRunningProcesses := (procs, nvml.SUCCESS);
     nvml.GetProcessUtilization := fun since =>
       let newer :=
         filter (fun s => (since < nvml.ProcessUtilizationSample.TimeStamp s)%N)
                buffer in
       (newer,
        match newer with
        | [] => nvml.ERROR_NOT_FOUND
        | _ :: _ => nvml.SUCCESS
        end) |}.

Definition holder (pid mem : N) : nvml.ProcessInfo.t :=
  {| nvml.ProcessInfo.Pid := pid; nvml.ProcessInfo.UsedGpuMemory := mem |}.

Definition util (pid ts smUtil : N) : nvml.ProcessUtilizationSample.t :=
  {| nvml.ProcessUtilizationSample.Pid := pid;
     nvml.ProcessUtilizationSample.TimeStamp := ts;
     nvml.ProcessUtilizationSample.SmUtil := smUtil |}.

(** Processes 100 and 200 hold memory; 100 and 300 have samples. *)
Definition gpu : nvml.Device :=
  deviceOf [holder 100 (4 * GiB); holder 200 (8 * GiB)]
           [util 100 1000 30; util 300 1500 90; util 100 2500 70].

(** [TestStaleProcessCleanup]: the time-out set to ten seconds, the process
    seen at 0 s and absent at 5 s and at 16 s. *)
Definition shortTimeout : Tracker :=
  {| states := ∅; staleTimeout := 10 * time.Second |}.

Definition busyThenGone : list collector.Snapshot :=
  [makeSnapshot 0 [busy]; empty (5 * time.Second)].

(** A device whose answer holds a sample older than the time stamp asked
    for. *)
Definition laggard : nvml.Device :=
  {| nvml.GetComputeRunningProcesses := ([holder 100 GiB], nvml.SUCCESS);
     nvml.GetProcessUtilization := fun _ => ([util 100 5 40], nvml.SUCCESS) |}.

Definition polledAt10 : collector.Collector :=
  {| collector.lastSampleTime := {[0 := 10%N]} |}.

End Example.

(** ** Further notions *)

Module More.

Import idle Spec.

(** The times of a tracked state in order: first seen, last active, last
    seen, none after [hi]; while idle, the idle streak starts no earlier
    than the last activity and no later than the last sighting. *)
Definition ordered (hi : Z) (st : processState) : Prop :=
  FirstSeenTime st ≤ LastActiveTime st ∧
  LastActiveTime st ≤ LastSeenTime st ∧
  LastSeenTime st ≤ hi ∧
  (IsIdle st = true →
   LastActiveTime st ≤ IdleSince st ∧ IdleSince st ≤ LastSeenTime st).

(** A new tracker with the time-out set. *)
Definition newWith (timeout : Z) : Tracker :=
  {| states := ∅; staleTimeout := timeout |}.

(** The same cycle with its batch in another order. *)
Definition reordered (snap : collector.Snapshot)
    (ps : list collector.ProcessSample) : collector.Snapshot :=
  {| collector.Timestamp := collector.Timestamp snap;
     collector.Processes := ps;
     collector.ProcessNames := collector.ProcessNames snap |}.

(** What the first loop of [Update] makes of a sample when no key occurs
    twice in the batch. *)
Definition viewOf (t : Tracker) (snap : collector.Snapshot)
    (p : collector.ProcessSample) : ProcessIdleState.t :=
  emit (collector.Timestamp snap) (collector.ProcessNames snap) p
    (classify (collector.Timestamp snap) p (states t !! keyOf p)).

End More.

(** ** The rest of package collector: devices, names, a whole cycle *)

(** The code converts integers to [float64] and divides two of them.  The
    type and the operations are parameters: nothing below depends on how
    floating point rounds. *)
Class Float64 (F : Type) : Type := {
  (** [float64(x)] for an unsigned integer [x] *)
  ofUint : N → F;
  (** [x / y] *)
  divide : F → F → F;
  (** [d.Seconds()] for a [time.Duration] [d] *)
  seconds : Z → F
}.

(** The two functions of package [strings] that [readProcessName] calls,
    as parameters: a rune is a [Z]. *)
Class Strings : Type := {
  TrimSpace : string → string;
  Map : (Z → Z) → string → string
}.

Module collection.

Import nvml.

Module Memory.
Record t : Type := {
  Total : N;
  Free : N;
  Used : N
}.
End Memory.

Module Utilization.
Record t : Type := {
  Gpu : N;
  Memory : N
}.
End Utilization.

(** A device handle: the two queries of [collectProcesses] and the six of
    [collectDevice] ([GetTemperature] is the one for [TEMPERATURE_GPU]). *)
Record Handle : Type := {
  processQueries : Device;
  GetName : string * Return;
  GetUUID : string * Return;
  GetMemoryInfo : Memory.t * Return;
  GetUtilizationRates : Utilization.t * Return;
  GetPowerUsage : N * Return;
  GetTemperature : N * Return
}.

(** The two calls of [Collect] on the library itself. *)
Record Driver : Type := {
  DeviceGetCount : Z * Return;
  DeviceGetHandleByIndex : Z → Handle * Return
}.

Record DeviceInfo (F : Type) : Type := {
  Index : Z;
  UUID : string;
  Name : string;
  MemoryUsed : N;
  MemoryTotal : N;
  Utilization : N;
  PowerWatts : F;
  TempCelsius : N
}.

Arguments Index {F} _.
Arguments UUID {F} _.
Arguments Name {F} _.
Arguments MemoryUsed {F} _.
Arguments MemoryTotal {F} _.
Arguments Utilization {F} _.
Arguments PowerWatts {F} _.
Arguments TempCelsius {F} _.

(** What [Collect] returns: the [Devices] of the snapshot beside its other
    fields. *)
Record Collected (F : Type) : Type := {
  Devices : list (DeviceInfo F);
  Snap : collector.Snapshot
}.

Arguments Devices {F} _.
Arguments Snap {F} _.

(** [collectDevice]: each field keeps its zero value unless its query
    succeeds. *)
Definition collectDevice {F : Type} `{Float64 F} (index : Z)
    (device : Handle) : DeviceInfo F :=
  let ok (ret : Return) := bool_decide (ret = SUCCESS) in
  {| Index := index;
     Name := if ok (GetName device).2
             then (GetName device).1 else EmptyString;
     UUID := if ok (GetUUID device).2
             then (GetUUID device).1 else EmptyString;
     MemoryUsed := if ok (GetMemoryInfo device).2
                   then Memory.Used (GetMemoryInfo device).1 else 0%N;
     MemoryTotal := if ok (GetMemoryInfo device).2
                    then Memory.Total (GetMemoryInfo device).1 else 0%N;
     Utilization := if ok (GetUtilizationRates device).2
                    then Utilization.Gpu (GetUtilizationRates device).1
                    else 0%N;
     PowerWatts := if ok (GetPowerUsage device).2
                   then divide (ofUint (GetPowerUsage device).1)
                               (ofUint 1000)
                   else ofUint 0;
     TempCelsius := if ok (GetTemperature device).2
                    then (GetTemperature device).1 else 0%N |}.

(** The function given to [strings.Map]: control characters go. *)
Definition stripControl (r : Z) : Z :=
  if (r <? 32) || (r =? 127) then -1 else r.

(** [readProcessName]; [comm pid] is what reading [/proc/<pid>/comm]
    gives, [None] for an error. *)
Definition readProcessName `{Strings} (comm : N → option string)
    (pid : N) : string :=
  match comm pid with
  | None => "unknown"
  | Some data =>
      let name := TrimSpace data in
      let name := Map stripControl name in
      let name :=
        if (64 <? String.length name)%nat then String.substring 0 64 name
        else name in
      if bool_decide (name = EmptyString) then "unknown" else name
  end%string.

(** The variables of the loop of [Collect] over the devices. *)
Record round (F : Type) : Type := {
  coll : collector.Collector;
  devices : list (DeviceInfo F);
  processes : list collector.ProcessSample
}.

Arguments coll {F} _.
Arguments devices {F} _.
Arguments processes {F} _.

(** One turn of that loop, for device index [i]. *)
Definition visitDevice {F : Type} `{Float64 F} (drv : Driver)
    (r : round F) (i : Z) : round F :=
  let '(device, ret) := DeviceGetHandleByIndex drv i in
  if negb (bool_decide (ret = SUCCESS)) then r
  else
    let di := collectDevice i device in
    let '(c, procs) :=
      collector.collectProcesses (coll r) i (processQueries device) in
    {| coll := c;
       devices := devices r ++ [di];
       processes := processes r ++ procs |}.

(** The loop of [Collect] over the processes, which reads each name
    once. *)
Definition readNames `{Strings} (comm : N → option string)
    (procs : list collector.ProcessSample) : gmap N string :=
  foldl (fun (names : gmap N string) p =>
           match names !! collector.PID p with
           | Some _ => names
           | None =>
               <[collector.PID p := readProcessName comm (collector.PID p)]>
                 names
           end)
        ∅ procs.

(** [Collect], given the clock reading [now]: the collector after the
    call, and the snapshot or the code [DeviceGetCount] failed with. *)
Definition Collect {F : Type} `{Float64 F} `{Strings}
    (c : collector.Collector) (drv : Driver) (now : Z)
    (comm : N → option string)
    : collector.Collector * (Return + Collected F) :=
  let '(count, ret) := DeviceGetCount drv in
  if negb (bool_decide (ret = SUCCESS)) then (c, inl ret)
  else
    let r := foldl (visitDevice drv)
               {| coll := c; devices := []; processes := [] |}
               (seqZ 0 count) in
    (coll r,
     inr {| Devices := devices r;
            Snap := {| collector.Timestamp := now;
                       collector.Processes := processes r;
                       collector.ProcessNames :=
                         readNames comm (processes r) |} |}).

End collection.

(** ** Notions for a whole cycle *)

Module Cycle.

Import nvml collection.

(** The handle of device [i] was obtained. *)
Definition good (drv : Driver) (i : Z) : Prop :=
  (DeviceGetHandleByIndex drv i).2 = SUCCESS.

#[global] Instance good_dec (drv : Driver) (i : Z) : Decision (good drv i).
Proof. unfold good. apply _. Defined.

(** The device indices a cycle reports: below the count, handle obtained,
    in increasing order. *)
Definition reported (drv : Driver) : list Z :=
  filter (good drv) (seqZ 0 (DeviceGetCount drv).1).

(** The queries of device [i] that [collectProcesses] makes. *)
Definition queriesOf (drv : Driver) (i : Z) : Device :=
  processQueries (DeviceGetHandleByIndex drv i).1.

(** What [collectProcesses] returns for device [i] from collector [c]. *)
Definition samplesOf (c : collector.Collector) (drv : Driver) (i : Z)
    : list collector.ProcessSample :=
  (collector.collectProcesses c i (queriesOf drv i)).2.

(** The process ids of the memory holders of device [i]. *)
Definition holdersOf (drv : Driver) (i : Z) : list N :=
  map ProcessInfo.Pid (GetComputeRunningProcesses (queriesOf drv i)).1.

End Cycle.

(** ** A driver to run a whole cycle on *)

Module Rig.

Import nvml collection.

(** A stand-in for [float64] with integer operations. *)
Definition intFloat : Float64 Z :=
  {| ofUint := Z.of_N;
     divide := Z.div;
     seconds := fun d => d / time.Second |}.

Definition isSpace (a : Ascii.ascii) : bool :=
  let n := Ascii.nat_of_ascii a in
  ((n =? 32) || ((9 <=? n) && (n <=? 13)))%nat.

Fixpoint dropSpaces (s : string) : string :=
  match s with
  | String a rest => if isSpace a then dropSpaces rest else s
  | EmptyString => EmptyString
  end.

Fixpoint mapBytes (f : Z → Z) (s : string) : string :=
  match s with
  | String a rest =>
      let r := f (Z.of_nat (Ascii.nat_of_ascii a)) in
      if r <? 0 then mapBytes f rest
      else String (Ascii.ascii_of_nat (Z.to_nat r)) (mapBytes f rest)
  | EmptyString => EmptyString
  end.

(** Stand-ins for the two functions of package [strings], which do to
    ASCII text what the Go functions do. *)
Definition asciiStrings : Strings :=
  {| TrimSpace := fun s => String.rev (dropSpaces (String.rev (dropSpaces s)));
     Map := mapBytes |}.

(** Device 0 answers every query; it is the device of the examples
    above. *)
Definition handle0 : Handle :=
  {| processQueries := Example.gpu;
     GetName := ("Tesla T4"%string, SUCCESS);
     GetUUID := ("GPU-0000"%string, SUCCESS);
     GetMemoryInfo :=
       ({| Memory.Total := 16 * Example.GiB;
           Memory.Free := 4 * Example.GiB;
           Memory.Used := 12 * Example.GiB |}, SUCCESS);
     GetUtilizationRates :=
       ({| Utilization.Gpu := 70; Utilization.Memory := 10 |}, SUCCESS);
     GetPowerUsage := (65000%N, SUCCESS);
     GetTemperature := (55%N, SUCCESS) |}.

(** The handle of device 1 is not obtained. *)
Definition lost : Handle :=
  {| processQueries := Example.deviceOf [] [];
     GetName := (EmptyString, ERROR_OTHER 999);
     GetUUID := (EmptyString, ERROR_OTHER 999);
     GetMemoryInfo :=
       ({| Memory.Total := 0; Memory.Free := 0; Memory.Used := 0 |},
        ERROR_OTHER 999);
     GetUtilizationRates :=
       ({| Utilization.Gpu := 0; Utilization.Memory := 0 |}, ERROR_OTHER 999);
     GetPowerUsage := (0%N, ERROR_OTHER 999);
     GetTemperature := (0%N, ERROR_OTHER 999) |}.

Definition driver : Driver :=
  {| DeviceGetCount := (2, SUCCESS);
     DeviceGetHandleByIndex := fun i =>
       if bool_decide (i = 0) then (handle0, SUCCESS)
       else (lost, ERROR_OTHER 999) |}.

(** Process 100 has a readable name, process 200 has none. *)
Definition comm (pid : N) : option string :=
  if bool_decide (pid = 100%N) then Some "python
"%string else None.

(** One cycle at 0 s from a new collector. *)
Definition collected : collector.Collector * (Return + Collected Z) :=
  @Collect Z intFloat asciiStrings collector.New driver 0 comm.

Definition snapshot : collector.Snapshot :=
  {| collector.Timestamp := 0;
     collector.Processes :=
       [Example.proc 0 100 (4 * Example.GiB) 70;
        Example.proc 0 200 (8 * Example.GiB) 0];
     collector.ProcessNames :=
       <[200%N := "unknown"%string]> {[100%N := "python"%string]} |}.

(** The collector and the result of that cycle. *)
Definition marked : collector.Collector :=
  {| collector.lastSampleTime := {[0 := 2500%N]} |}.

Definition col : Collected Z :=
  {| Devices :=
       [{| Index := 0;
           UUID := "GPU-0000";
           Name := "Tesla T4";
           MemoryUsed := 12 * Example.GiB;
           MemoryTotal := 16 * Example.GiB;
           Utilization := 70;
           PowerWatts := 65;
           TempCelsius := 55 |}];
     Snap := snapshot |}.

End Rig.

(** ** Package exporter *)

Module exporter.

Import collection.

(** [strconv.Itoa] and [strconv.FormatUint(_, 10)]: decimal digits, with a
    minus sign for a negative number. *)
Definition Itoa (i : Z) : string := NilEmpty.string_of_int (Z.to_int i).

Definition FormatUint (n : N) : string :=
  NilEmpty.string_of_uint (N.to_uint n).

(** The string "\x00". *)
Definition nul : string := String Ascii.zero EmptyString.

(** [s[n:]] *)
Fixpoint skip (n : nat) (s : string) : string :=
  match n, s with
  | S m, String _ rest => skip m rest
  | _, _ => s
  end.

(** [m := strings.Index(s, sep)] and the two slices [s[:m]] and
    [s[m+len(sep):]] around the first place where [sep] occurs in [s];
    [None] when it occurs nowhere ([m < 0]). *)
Fixpoint cut (sep s : string) : option (string * string) :=
  if String.prefix sep s
  then Some (EmptyString, skip (String.length sep) s)
  else
    match s with
    | String a rest =>
        match cut sep rest with
        | Some (before, after) => Some (String a before, after)
        | None => None
        end
    | EmptyString => None
    end.

(** The loop of [strings.SplitN], which runs at most [n - 1] times. *)
Fixpoint splitLoop (turns : nat) (sep s : string) : list string :=
  match turns with
  | S more =>
      match cut sep s with
      | Some (before, after) => before :: splitLoop more sep after
      | None => [s]
      end
  | O => [s]
  end.

(** [strings.SplitN(s, sep, n)] for a separator that is not empty and
    [n >= 0], which is how [UpdateMetrics] calls it: no string for
    [n = 0]; otherwise [n] is first lowered to [len(s) + 1]. *)
Definition SplitN (s sep : string) (n : nat) : list string :=
  match n with
  | O => []
  | S m => splitLoop (Nat.min m (String.length s)) sep s
  end.

(** The values of the labels of a series, in the order of the label names
    of its vector: [gpu, pid, process] or [gpu, model, uuid]. *)
Abbreviation labels := (string * string * string)%type (only parsing).

(** A gauge vector is the map from the label values of its series to
    their values; the ten vectors and the keys of the last cycle. *)
Record Exporter (F : Type) : Type := {
  processComputeUtil : gmap labels F;
  processMemUsed : gmap labels F;
  processIdleSecs : gmap labels F;
  processIdleMem : gmap labels F;
  deviceUtil : gmap labels F;
  deviceMemUsed : gmap labels F;
  deviceMemTotal : gmap labels F;
  devicePower : gmap labels F;
  deviceTemp : gmap labels F;
  idleMemTotal : gmap string F;
  prevProcessKeys : gset string
}.

Arguments processComputeUtil {F} _.
Arguments processMemUsed {F} _.
Arguments processIdleSecs {F} _.
Arguments processIdleMem {F} _.
Arguments deviceUtil {F} _.
Arguments deviceMemUsed {F} _.
Arguments deviceMemTotal {F} _.
Arguments devicePower {F} _.
Arguments deviceTemp {F} _.
Arguments idleMemTotal {F} _.
Arguments prevProcessKeys {F} _.

Definition New {F : Type} : Exporter F :=
  {| processComputeUtil := ∅;
     processMemUsed := ∅;
     processIdleSecs := ∅;
     processIdleMem := ∅;
     deviceUtil := ∅;
     deviceMemUsed := ∅;
     deviceMemTotal := ∅;
     devicePower := ∅;
     deviceTemp := ∅;
     idleMemTotal := ∅;
     prevProcessKeys := ∅ |}.

Section update_metrics.

Context {F : Type} `{!Float64 F}.

(** One turn of the loop over the devices: [With(labels).Set(v)] makes
    the series if it is not there and sets its value. *)
Definition setDevice (e : Exporter F) (d : DeviceInfo F) : Exporter F :=
  let gpuStr := Itoa (Index d) in
  let labels := (gpuStr, Name d, UUID d) in
  {| processComputeUtil := processComputeUtil e;
     processMemUsed := processMemUsed e;
     processIdleSecs := processIdleSecs e;
     processIdleMem := processIdleMem e;
     deviceUtil := <[labels := ofUint (Utilization d)]> (deviceUtil e);
     deviceMemUsed := <[labels := ofUint (MemoryUsed d)]> (deviceMemUsed e);
     deviceMemTotal := <[labels := ofUint (MemoryTotal d)]> (deviceMemTotal e);
     devicePower := <[labels := PowerWatts d]> (devicePower e);
     deviceTemp := <[labels := ofUint (TempCelsius d)]> (deviceTemp e);
     idleMemTotal := idleMemTotal e;
     prevProcessKeys := prevProcessKeys e |}.

(** The label values and the key of a view. *)
Definition processLabels (ps : idle.ProcessIdleState.t) : labels :=
  (Itoa (idle.ProcessIdleState.GPU ps),
   FormatUint (idle.ProcessIdleState.PID ps),
   idle.ProcessIdleState.ProcessName ps).

Definition keyOfLabels (l : labels) : string :=
  (l.1.1 +:+ nul +:+ l.1.2 +:+ nul +:+ l.2)%string.

(** The variables of the loop over the views. *)
Record tally : Type := {
  gauges : Exporter F;
  currentKeys : gset string;
  idleMemByGPU : gmap Z N
}.

(** One turn of that loop; the sum of idle memory is a [uint64]. *)
Definition setProcess (a : tally) (ps : idle.ProcessIdleState.t) : tally :=
  let labels := processLabels ps in
  let key := keyOfLabels labels in
  let e := gauges a in
  {| gauges :=
       {| processComputeUtil :=
            <[labels := ofUint (idle.ProcessIdleState.SmUtil ps)]>
              (processComputeUtil e);
          processMemUsed :=
            <[labels := ofUint (idle.ProcessIdleState.UsedMemory ps)]>
              (processMemUsed e);
          processIdleSecs :=
            <[labels := seconds (idle.ProcessIdleState.IdleDuration ps)]>
              (processIdleSecs e);
          processIdleMem :=
            <[labels := ofUint (idle.ProcessIdleState.IdleMemory ps)]>
              (processIdleMem e);
          deviceUtil := deviceUtil e;
          deviceMemUsed := deviceMemUsed e;
          deviceMemTotal := deviceMemTotal e;
          devicePower := devicePower e;
          deviceTemp := deviceTemp e;
          idleMemTotal := idleMemTotal e;
          prevProcessKeys := prevProcessKeys e |};
     currentKeys := {[key]} ∪ currentKeys a;
     idleMemByGPU :=
       <[idle.ProcessIdleState.GPU ps :=
           ((default 0 (idleMemByGPU a !! idle.ProcessIdleState.GPU ps)
             + idle.ProcessIdleState.IdleMemory ps) mod 2 ^ 64)%N]>
         (idleMemByGPU a) |}.

(** One turn of the loop that sets the idle memory of a device. *)
Definition setIdleTotal (byGPU : gmap Z N) (e : Exporter F)
    (d : DeviceInfo F) : Exporter F :=
  {| processComputeUtil := processComputeUtil e;
     processMemUsed := processMemUsed e;
     processIdleSecs := processIdleSecs e;
     processIdleMem := processIdleMem e;
     deviceUtil := deviceUtil e;
     deviceMemUsed := deviceMemUsed e;
     deviceMemTotal := deviceMemTotal e;
     devicePower := devicePower e;
     deviceTemp := deviceTemp e;
     idleMemTotal :=
       <[Itoa (Index d) := ofUint (default 0%N (byGPU !! Index d))]>
         (idleMemTotal e);
     prevProcessKeys := prevProcessKeys e |}.

(** [Delete(labels)] on the four vectors of the processes. *)
Definition deleteProcess (l : labels) (e : Exporter F) : Exporter F :=
  {| processComputeUtil := delete l (processComputeUtil e);
     processMemUsed := delete l (processMemUsed e);
     processIdleSecs := delete l (processIdleSecs e);
     processIdleMem := delete l (processIdleMem e);
     deviceUtil := deviceUtil e;
     deviceMemUsed := deviceMemUsed e;
     deviceMemTotal := deviceMemTotal e;
     devicePower := devicePower e;
     deviceTemp := deviceTemp e;
     idleMemTotal := idleMemTotal e;
     prevProcessKeys := prevProcessKeys e |}.

(** One turn of the clean-up loop, for a key of the cycle before. *)
Definition dropStale (current : gset string) (prevKey : string)
    (e : Exporter F) : Exporter F :=
  if bool_decide (prevKey ∈ current) then e
  else
    match SplitN prevKey nul 3 with
    | [gpu; pid; process] => deleteProcess (gpu, pid, process) e
    | _ => e
    end.

(** [e.prevProcessKeys = currentKeys] *)
Definition withKeys (current : gset string) (e : Exporter F) : Exporter F :=
  {| processComputeUtil := processComputeUtil e;
     processMemUsed := processMemUsed e;
     processIdleSecs := processIdleSecs e;
     processIdleMem := processIdleMem e;
     deviceUtil := deviceUtil e;
     deviceMemUsed := deviceMemUsed e;
     deviceMemTotal := deviceMemTotal e;
     devicePower := devicePower e;
     deviceTemp := deviceTemp e;
     idleMemTotal := idleMemTotal e;
     prevProcessKeys := current |}.

(** [UpdateMetrics].  The clean-up loop ranges over a Go map, in no fixed
    order; its turns delete series and so commute, and the model runs them
    in the order of the elements of the set. *)
Definition UpdateMetrics (e : Exporter F) (snap : Collected F)
    (states : list idle.ProcessIdleState.t) : Exporter F :=
  let e1 := foldl setDevice e (Devices snap) in
  let a := foldl setProcess
             {| gauges := e1; currentKeys := ∅; idleMemByGPU := ∅ |}
             states in
  let e2 := foldl (setIdleTotal (idleMemByGPU a)) (gauges a) (Devices snap) in
  let e3 := set_fold (dropStale (currentKeys a)) e2 (prevProcessKeys e) in
  withKeys (currentKeys a) e3.

End update_metrics.

End exporter.

(** ** Package main: one polling cycle *)

Module main.

Import collection idle exporter.

(** [poll]: collect, track, export; a failed collection ends the cycle
    there. *)
Definition poll {F : Type} `{!Float64 F} `{!Strings}
    (coll : collector.Collector) (tracker : Tracker) (prom : Exporter F)
    (drv : Driver) (now : Z) (comm : N → option string)
    : collector.Collector * Tracker * Exporter F :=
  match Collect coll drv now comm with
  | (coll', inl _) => (coll', tracker, prom)
  | (coll', inr snap) =>
      let '(tracker', states) := Update tracker (Snap snap) in
      (coll', tracker', UpdateMetrics prom snap states)
  end.

End main.

(** ** Notions for the metrics *)

Module Metrics.

Import idle exporter.

(** The string holds a byte zero. *)
Fixpoint hasNul (s : string) : bool :=
  match s with
  | String a rest => Ascii.eqb a Ascii.zero || hasNul rest
  | EmptyString => false
  end.

(** The label values the clean-up loop reads back from a key. *)
Definition decode (key : string) : option (string * string * string) :=
  match SplitN key nul 3 with
  | [gpu; pid; process] => Some (gpu, pid, process)
  | _ => None
  end.

(** The label values and the keys of the views of a cycle. *)
Definition labelSet (states : list ProcessIdleState.t)
    : gset (string * string * string) :=
  list_to_set (map processLabels states).

Definition keySet (states : list ProcessIdleState.t) : gset string :=
  list_to_set (map (fun ps => keyOfLabels (processLabels ps)) states).

(** The four vectors of the processes hold exactly the series [S]. *)
Definition seriesAre {F : Type} (e : Exporter F)
    (S : gset (string * string * string)) : Prop :=
  dom (processComputeUtil e) = S ∧
  dom (processMemUsed e) = S ∧
  dom (processIdleSecs e) = S ∧
  dom (processIdleMem e) = S.

(** The exporter is as a cycle on the views [states] leaves it. *)
Definition inSync {F : Type} (e : Exporter F)
    (states : list ProcessIdleState.t) : Prop :=
  prevProcessKeys e = keySet states ∧ seriesAre e (labelSet states).

(** The idle memory of the views on device [gpu], summed exactly. *)
Definition idleBytes (gpu : Z) (states : list ProcessIdleState.t) : N :=
  foldr N.add 0%N
    (map ProcessIdleState.IdleMemory
       (filter (fun ps => ProcessIdleState.GPU ps = gpu) states)).

(** [pick] is one of the four vectors of the processes, and [val] the
    value a view gives to its series there: how each loop of
    [UpdateMetrics] treats that vector. *)
Definition processVector {F : Type} `{!Float64 F}
    (pick : Exporter F → gmap (string * string * string) F)
    (val : ProcessIdleState.t → F) : Prop :=
  (∀ e d, pick (setDevice e d) = pick e) ∧
  (∀ a ps, pick (gauges (setProcess a ps))
           = <[processLabels ps := val ps]> (pick (gauges a))) ∧
  (∀ byGPU e d, pick (setIdleTotal byGPU e d) = pick e) ∧
  (∀ l e, pick (deleteProcess l e) = delete l (pick e)) ∧
  (∀ keys e, pick (withKeys keys e) = pick e).

(** The label values of the series of a device. *)
Definition deviceLabels {F : Type} (d : collection.DeviceInfo F)
    : string * string * string :=
  (Itoa (collection.Index d), collection.Name d, collection.UUID d).

(** [get] is one of the five vectors of the devices, and [val] the value
    a device gives to its series there. *)
Definition deviceVector {F : Type} `{!Float64 F}
    (get : Exporter F → gmap (string * string * string) F)
    (val : collection.DeviceInfo F → F) : Prop :=
  (∀ e d, get (setDevice e d) = <[deviceLabels d := val d]> (get e)) ∧
  (∀ a ps, get (gauges (setProcess a ps)) = get (gauges a)) ∧
  (∀ byGPU e d, get (setIdleTotal byGPU e d) = get e) ∧
  (∀ l e, get (deleteProcess l e) = get e) ∧
  (∀ keys e, get (withKeys keys e) = get e).

(** [get] is a vector of the devices or the vector of idle memory, as the
    loops of [UpdateMetrics] treat it: the loops over the devices add to it
    or overwrite, the others leave it alone. *)
Definition onlyGrows {F : Type} `{!Float64 F} {K : Type} `{Countable K}
    (get : Exporter F → gmap K F) : Prop :=
  (∀ e d, dom (get e) ⊆ dom (get (setDevice e d))) ∧
  (∀ a ps, get (gauges (setProcess a ps)) = get (gauges a)) ∧
  (∀ byGPU e d, dom (get e) ⊆ dom (get (setIdleTotal byGPU e d))) ∧
  (∀ l e, get (deleteProcess l e) = get e) ∧
  (∀ keys e, get (withKeys keys e) = get e).

(** The labels a cycle gives to the series of a sample. *)
Definition sampleLabels `{!Strings} (comm : N → option string)
    (s : collector.ProcessSample) : string * string * string :=
  (Itoa (collector.GPU s), FormatUint (collector.PID s),
   collection.readProcessName comm (collector.PID s)).

(** The exporter after a sequence of cycles. *)
Definition runMetrics {F : Type} `{!Float64 F} (e : Exporter F)
    (cycles : list (collection.Collected F * list ProcessIdleState.t))
    : Exporter F :=
  foldl (fun e cy => UpdateMetrics e cy.1 cy.2) e cycles.

End Metrics.

(** * Properties *)

Import idle Spec.

(** ** Time differences *)

Lemma Sub_exact (t u : Z) :
  time.minDuration ≤ t - u ≤ time.maxDuration → time.Sub t u = t - u.
Proof.
  intros [Hlo Hhi]. unfold time.Sub. cbv zeta.
  destruct (Z.ltb_spec time.maxDuration (t - u)); [lia|].
  destruct (Z.ltb_spec (t - u) time.minDuration); [lia|done].
Qed.

Lemma Sub_diag (t : Z) : time.Sub t t = 0.
Proof. rewrite Sub_exact; unfold time.minDuration, time.maxDuration; lia. Qed.

(** Against a time-out that is a duration below the largest one, the
    saturated difference compares as the exact one does. *)
Lemma Sub_gt (t u timeout : Z) :
  time.minDuration ≤ timeout < time.maxDuration →
  (timeout < time.Sub t u ↔ timeout < t - u).
Proof.
  intros [Hlo Hhi]. unfold time.Sub. cbv zeta.
  destruct (Z.ltb_spec time.maxDuration (t - u)); [lia|].
  destruct (Z.ltb_spec (t - u) time.minDuration); lia.
Qed.

(** ** The first loop of [Update] *)

Section first_loop.

Context (now : Z) (names : gmap N string).

Lemma classifyAll_snoc ps p c :
  classifyAll now names (ps ++ [p]) c
  = visit now names (classifyAll now names ps c) p.
Proof. unfold classifyAll. by rewrite foldl_app. Qed.

Lemma stateAfter_snoc k ps p o :
  stateAfter now k (ps ++ [p]) o
  = if decide (keyOf p = k)
    then Some (classify now p (stateAfter now k ps o))
    else stateAfter now k ps o.
Proof. unfold stateAfter. by rewrite foldl_app. Qed.

Lemma stateAfter_cons k p ps o :
  stateAfter now k (p :: ps) o
  = stateAfter now k ps
      (if decide (keyOf p = k) then Some (classify now p o) else o).
Proof. done. Qed.

(** The map after the loop, key by key. *)
Lemma tracked_classifyAll ps c k :
  tracked (classifyAll now names ps c) !! k
  = stateAfter now k ps (tracked c !! k).
Proof.
  induction ps as [|p ps IH] using rev_ind; [done|].
  rewrite classifyAll_snoc, stateAfter_snoc. cbn.
  destruct (decide (keyOf p = k)) as [->|Hne].
  - by rewrite lookup_insert_eq, IH.
  - by rewrite lookup_insert_ne, IH.
Qed.

Lemma seen_classifyAll ps c k :
  k ∈ seen (classifyAll now names ps c) ↔ k ∈ seen c ∨ k ∈ keys ps.
Proof.
  induction ps as [|p ps IH] using rev_ind.
  - cbn. rewrite elem_of_nil. tauto.
  - rewrite classifyAll_snoc. cbn. unfold keys in *.
    rewrite map_app, elem_of_app, elem_of_union, elem_of_singleton, IH.
    cbn. rewrite list_elem_of_singleton. tauto.
Qed.

Lemma length_results_classifyAll ps c :
  length (results (classifyAll now names ps c))
  = (length (results c) + length ps)%nat.
Proof.
  induction ps as [|p ps IH] using rev_ind; [cbn; lia|].
  rewrite classifyAll_snoc. cbn. rewrite !length_app, IH. cbn. lia.
Qed.

(** The view at index [i] is made from sample [i] and from the state its
    key has once the samples up to [i] are classified. *)
Lemma results_classifyAll ps c i p :
  ps !! i = Some p →
  results (classifyAll now names ps c) !! (length (results c) + i)%nat
  = Some (emit now names p
            (classify now p
               (tracked (classifyAll now names (take i ps) c) !! keyOf p))).
Proof.
  revert i p. induction ps as [|q ps IH] using rev_ind; intros i p Hi; [done|].
  rewrite classifyAll_snoc. cbn.
  destruct (decide (i < length ps)%nat) as [Hlt|Hge].
  - rewrite lookup_app_l in Hi by done.
    rewrite lookup_app_l by (rewrite length_results_classifyAll; lia).
    rewrite take_app_le by lia. by apply IH.
  - apply lookup_lt_Some in Hi as Hlen. rewrite length_app in Hlen. cbn in Hlen.
    assert (i = length ps) as -> by lia.
    rewrite lookup_app_r in Hi by lia. rewrite Nat.sub_diag in Hi.
    injection Hi as ->.
    rewrite lookup_app_r by (rewrite length_results_classifyAll; lia).
    rewrite length_results_classifyAll.
    replace (length (results c) + length ps
             - (length (results c) + length ps))%nat with 0%nat by lia.
    cbn. by rewrite take_app_length.
Qed.

End first_loop.

(** ** What a cycle stores under one key *)

Section state_after.

Context (now : Z).

Lemma stateAfter_absent k ps o :
  k ∉ keys ps → stateAfter now k ps o = o.
Proof.
  revert o. induction ps as [|p ps IH]; intros o Hk; [done|].
  unfold keys in Hk. cbn in Hk. apply not_elem_of_cons in Hk as [Hne Hk].
  rewrite stateAfter_cons, decide_False by done. by apply IH.
Qed.

Lemma stateAfter_is_Some k ps o :
  is_Some o → is_Some (stateAfter now k ps o).
Proof.
  revert o. induction ps as [|p ps IH]; intros o Ho; [done|].
  rewrite stateAfter_cons. apply IH. by case_decide.
Qed.

Lemma stateAfter_present k ps o :
  k ∈ keys ps → is_Some (stateAfter now k ps o).
Proof.
  revert o. induction ps as [|p ps IH]; intros o Hk.
  - by apply elem_of_nil in Hk.
  - unfold keys in Hk. cbn in Hk. rewrite stateAfter_cons.
    apply elem_of_cons in Hk as [->|Hk].
    + rewrite decide_True by done. by apply stateAfter_is_Some.
    + by apply IH.
Qed.

(** Only the samples of key [k] count. *)
Lemma stateAfter_filter k ps o :
  stateAfter now k ps o
  = stateAfter now k (filter (fun p => keyOf p = k) ps) o.
Proof.
  revert o. induction ps as [|p ps IH]; intros o; [done|].
  rewrite stateAfter_cons. destruct (decide (keyOf p = k)) as [Heq|Hne].
  - rewrite filter_cons_True by done.
    rewrite stateAfter_cons, decide_True by done. apply IH.
  - rewrite filter_cons_False by done. apply IH.
Qed.

Lemma keys_take_firstAt ps i p :
  firstAt ps i p → keyOf p ∉ keys (take i ps).
Proof.
  intros [_ Hfirst] Hin. unfold keys in Hin.
  apply list_elem_of_fmap in Hin as (q & Hq & Hin).
  apply list_elem_of_lookup in Hin as [j Hj].
  apply lookup_take_Some in Hj as [Hj Hlt].
  by apply (Hfirst j q).
Qed.

Lemma onlyAt_firstAt ps i p : onlyAt ps i p → firstAt ps i p.
Proof.
  intros [Hi Honly]. split; [done|].
  intros j q Hlt Hj Heq. specialize (Honly j q Hj Heq). lia.
Qed.

Lemma keys_drop_onlyAt ps i p :
  onlyAt ps i p → keyOf p ∉ keys (drop (S i) ps).
Proof.
  intros [_ Honly] Hin. unfold keys in Hin.
  apply list_elem_of_fmap in Hin as (q & Hq & Hin).
  apply list_elem_of_lookup in Hin as [j Hj].
  rewrite lookup_drop in Hj.
  specialize (Honly _ _ Hj (eq_sym Hq)). lia.
Qed.

Lemma elem_of_keys_lookup ps i p :
  ps !! i = Some p → keyOf p ∈ keys ps.
Proof.
  intros Hi. unfold keys. apply list_elem_of_fmap. exists p. split; [done|].
  apply list_elem_of_lookup. eauto.
Qed.

Lemma stateAfter_app k ps qs o :
  stateAfter now k (ps ++ qs) o = stateAfter now k qs (stateAfter now k ps o).
Proof. unfold stateAfter. by rewrite foldl_app. Qed.

(** Up to and including the first sample of a key. *)
Lemma stateAfter_firstAt ps i p o :
  firstAt ps i p →
  stateAfter now (keyOf p) (take (S i) ps) o = Some (classify now p o).
Proof.
  intros Hfirst. pose proof Hfirst as [Hi _].
  rewrite (take_S_r _ _ _ Hi), stateAfter_snoc, decide_True by done.
  by rewrite stateAfter_absent by by apply keys_take_firstAt.
Qed.

(** A key with one sample in the batch is classified once. *)
Lemma stateAfter_onlyAt ps i p o :
  onlyAt ps i p →
  stateAfter now (keyOf p) ps o = Some (classify now p o).
Proof.
  intros Honly.
  rewrite <- (take_drop (S i) ps) at 1. rewrite stateAfter_app.
  rewrite stateAfter_firstAt by by apply onlyAt_firstAt.
  by rewrite stateAfter_absent by by apply keys_drop_onlyAt.
Qed.

End state_after.

(** ** The sweep and the whole of [Update] *)

Lemma sweep_lookup now timeout sn m k :
  sweep now timeout sn m !! k
  = match m !! k with
    | Some st => if stale now timeout sn k st then None else Some st
    | None => None
    end.
Proof.
  unfold sweep. destruct (m !! k) as [st|] eqn:Hk.
  - destruct (stale now timeout sn k st) eqn:Hst.
    + apply map_lookup_filter_None. right. intros st' Hst'. cbn.
      assert (st' = st) as -> by congruence. by rewrite Hst.
    + apply map_lookup_filter_Some. by split.
  - apply map_lookup_filter_None. by left.
Qed.

Lemma stale_seen now timeout sn k st :
  k ∈ sn → stale now timeout sn k st = false.
Proof. intros Hk. unfold stale. by rewrite bool_decide_eq_true_2. Qed.

Lemma stale_unseen now timeout sn k st :
  k ∉ sn →
  stale now timeout sn k st = (timeout <? time.Sub now (LastSeenTime st)).
Proof. intros Hk. unfold stale. by rewrite bool_decide_eq_false_2. Qed.

Section update.

Context (t : Tracker) (snap : collector.Snapshot).

Let now := collector.Timestamp snap.
Let ps := collector.Processes snap.
Let names := collector.ProcessNames snap.

Lemma Update_length : length (Update t snap).2 = length ps.
Proof. cbn. by rewrite length_results_classifyAll. Qed.

Lemma midCycle_tracked n k :
  tracked (midCycle t snap n) !! k
  = stateAfter now k (take n ps) (states t !! k).
Proof. unfold midCycle. by rewrite tracked_classifyAll. Qed.

(** A key of the batch is kept, with the state the first loop left. *)
Lemma Update_lookup_seen k :
  k ∈ keys ps →
  states (Update t snap).1 !! k = stateAfter now k ps (states t !! k).
Proof.
  intros Hk. unfold Update, now, ps in *. cbn [fst states].
  rewrite sweep_lookup, tracked_classifyAll. cbn [tracked].
  destruct (stateAfter_present (collector.Timestamp snap) k _
              (states t !! k) Hk) as [st ->].
  rewrite stale_seen; [done|]. apply seen_classifyAll. by right.
Qed.

(** A key out of the batch keeps its state or is swept. *)
Lemma Update_lookup_unseen k :
  k ∉ keys ps →
  states (Update t snap).1 !! k
  = match states t !! k with
    | Some st =>
        if staleTimeout t <? time.Sub now (LastSeenTime st)
        then None else Some st
    | None => None
    end.
Proof.
  intros Hk. unfold Update, now, ps in *. cbn [fst states].
  rewrite sweep_lookup, tracked_classifyAll. cbn [tracked].
  rewrite stateAfter_absent by done.
  destruct (states t !! k) as [st|]; [|done].
  rewrite stale_unseen; [done|].
  rewrite seen_classifyAll. cbn [seen].
  intros [Hin|Hin]; [by apply not_elem_of_empty in Hin|done].
Qed.

(** The view at index [i]. *)
Lemma Update_view i p :
  ps !! i = Some p →
  (Update t snap).2 !! i
  = Some (emit now names p
            (classify now p (tracked (midCycle t snap i) !! keyOf p))).
Proof.
  intros Hi. cbn.
  exact (results_classifyAll now names ps (start t) i p Hi).
Qed.

Lemma midCycle_S i p :
  ps !! i = Some p →
  tracked (midCycle t snap (S i)) !! keyOf p
  = Some (classify now p (tracked (midCycle t snap i) !! keyOf p)).
Proof.
  intros Hi. rewrite !midCycle_tracked.
  rewrite (take_S_r _ _ _ Hi), stateAfter_snoc. by rewrite decide_True.
Qed.

End update.

(** ** One sample *)

Lemma classify_new now p : classify now p None = fresh now.
Proof. done. Qed.

Lemma classify_FirstSeenTime now p st :
  FirstSeenTime (classify now p (Some st)) = FirstSeenTime st.
Proof. cbn. by case_match. Qed.

Lemma classify_active now p st :
  (0 < collector.SmUtil p)%N →
  classify now p (Some st)
  = {| LastActiveTime := now;
       LastSeenTime := now;
       FirstSeenTime := FirstSeenTime st;
       IsIdle := false;
       IdleSince := IdleSince st |}.
Proof.
  intros Hu. cbn. apply N.ltb_lt in Hu. rewrite Hu. by destruct (IsIdle st).
Qed.

Lemma classify_silent now p st :
  collector.SmUtil p = 0%N →
  classify now p (Some st)
  = {| LastActiveTime := LastActiveTime st;
       LastSeenTime := now;
       FirstSeenTime := FirstSeenTime st;
       IsIdle := true;
       IdleSince := if IsIdle st then IdleSince st else now |}.
Proof. intros Hu. cbn. rewrite Hu. cbn. by destruct (IsIdle st). Qed.

Lemma emit_IsIdle now names p st :
  ProcessIdleState.IsIdle (emit now names p st) = IsIdle st.
Proof. done. Qed.

Lemma emit_active now names p st :
  IsIdle st = false →
  ProcessIdleState.IsIdle (emit now names p st) = false ∧
  ProcessIdleState.IdleDuration (emit now names p st) = 0 ∧
  ProcessIdleState.IdleMemory (emit now names p st) = 0%N.
Proof. intros Hst. cbn. by rewrite Hst. Qed.

Lemma emit_idle now names p st :
  IsIdle st = true →
  ProcessIdleState.IsIdle (emit now names p st) = true ∧
  ProcessIdleState.IdleDuration (emit now names p st)
  = time.Sub now (IdleSince st) ∧
  ProcessIdleState.IdleMemory (emit now names p st) = collector.UsedMemory p.
Proof. intros Hst. cbn. by rewrite Hst. Qed.

Lemma emit_viewKey now names p st : viewKey (emit now names p st) = keyOf p.
Proof. done. Qed.

(** Every view returned is the one made from the sample at its index. *)
Lemma Update_view_inv t snap i v :
  (Update t snap).2 !! i = Some v →
  ∃ p, collector.Processes snap !! i = Some p ∧
       v = emit (collector.Timestamp snap) (collector.ProcessNames snap) p
             (classify (collector.Timestamp snap) p
                (tracked (midCycle t snap i) !! keyOf p)).
Proof.
  intros Hv. apply lookup_lt_Some in Hv as Hlen. rewrite Update_length in Hlen.
  apply lookup_lt_is_Some_2 in Hlen as [p Hp]. exists p. split; [done|].
  rewrite (Update_view t snap i p Hp) in Hv. congruence.
Qed.

(** ** The derived output *)

(** C1. Every view [v] that [Update] returns, at index [i] say, is made from
    the sample [p] at index [i] of the batch and from the state [st] stored
    under the key of [p] when the view is emitted.  When [v] is not idle its
    idle duration and idle memory are zero; when it is idle the duration is
    [now.Sub(st.IdleSince)], which is [now - st.IdleSince] whenever that
    difference is a duration, and the idle memory is the memory [p] holds. *)
Theorem emitted_view_derived (t : Tracker) (snap : collector.Snapshot)
    (i : nat) (v : ProcessIdleState.t) :
  (Update t snap).2 !! i = Some v →
  ∃ p st,
    collector.Processes snap !! i = Some p ∧
    tracked (midCycle t snap (S i)) !! keyOf p = Some st ∧
    ProcessIdleState.IsIdle v = IsIdle st ∧
    (ProcessIdleState.IsIdle v = false →
       ProcessIdleState.IdleDuration v = 0 ∧
       ProcessIdleState.IdleMemory v = 0%N) ∧
    (ProcessIdleState.IsIdle v = true →
       ProcessIdleState.IdleDuration v
       = time.Sub (collector.Timestamp snap) (IdleSince st) ∧
       (time.minDuration ≤ collector.Timestamp snap - IdleSince st
                         ≤ time.maxDuration →
        ProcessIdleState.IdleDuration v
        = collector.Timestamp snap - IdleSince st) ∧
       ProcessIdleState.IdleMemory v = collector.UsedMemory p).
Proof.
  intros Hv. destruct (Update_view_inv _ _ _ _ Hv) as (p & Hp & ->).
  eexists p, _. split; [done|]. split; [by apply midCycle_S|].
  split; [done|]. rewrite emit_IsIdle. split.
  - intros Hidle. by apply emit_active.
  - intros Hidle. destruct (emit_idle (collector.Timestamp snap)
      (collector.ProcessNames snap) p _ Hidle) as (_ & Hd & Hm).
    split; [done|]. split; [|done].
    intros Hrange. by rewrite Hd, Sub_exact.
Qed.

Lemma emitted_view_derived_witness :
  (Update Example.after2 Example.cycle3).2 !! 0%nat = Some Example.view3 ∧
  ∃ st,
    tracked (midCycle Example.after2 Example.cycle3 1) !! keyOf Example.quiet
    = Some st ∧
    10 * time.Second = time.Sub (15 * time.Second) (IdleSince st).
Proof.
  assert ((Update Example.after2 Example.cycle3).2 !! 0%nat
          = Some Example.view3) as Hv by (vm_compute; reflexivity).
  split; [exact Hv|].
  destruct (emitted_view_derived _ _ _ _ Hv)
    as (p & st & Hp & Hst & _ & _ & Hidle).
  assert (p = Example.quiet) as ->.
  { apply (inj Some). rewrite <- Hp. vm_compute. reflexivity. }
  exists st. split; [exact Hst|].
  destruct (Hidle eq_refl) as (Hdur & _ & _). exact Hdur.
Defined.

(** ** First observation *)

(** C2. A sample [p] whose key is not tracked, at the first place [i] of the
    batch where that key occurs, with any utilization: right after it is
    classified the key holds a new state whose first-seen, last-seen and
    last-active times are the cycle's time stamp and which is not idle, and
    the view returned for it is not idle with zero idle duration and zero
    idle memory.  When the key occurs nowhere else in the batch this is the
    state the tracker holds when [Update] returns. *)
Theorem first_observation_grace (t : Tracker) (snap : collector.Snapshot)
    (i : nat) (p : collector.ProcessSample) :
  states t !! keyOf p = None →
  firstAt (collector.Processes snap) i p →
  (∃ st,
     tracked (midCycle t snap (S i)) !! keyOf p = Some st ∧
     FirstSeenTime st = collector.Timestamp snap ∧
     LastSeenTime st = collector.Timestamp snap ∧
     LastActiveTime st = collector.Timestamp snap ∧
     IsIdle st = false ∧
     (onlyAt (collector.Processes snap) i p →
      states (Update t snap).1 !! keyOf p = Some st)) ∧
  (∃ v,
     (Update t snap).2 !! i = Some v ∧
     viewKey v = keyOf p ∧
     ProcessIdleState.IsIdle v = false ∧
     ProcessIdleState.IdleDuration v = 0 ∧
     ProcessIdleState.IdleMemory v = 0%N).
Proof.
  intros Hnew Hfirst. pose proof Hfirst as [Hi _].
  assert (tracked (midCycle t snap i) !! keyOf p = None) as Hbefore.
  { rewrite midCycle_tracked, stateAfter_absent; [done|].
    by apply keys_take_firstAt. }
  split.
  - exists (fresh (collector.Timestamp snap)).
    split; [by rewrite (midCycle_S _ _ _ _ Hi), Hbefore|].
    repeat (split; [done|]).
    intros Honly. rewrite Update_lookup_seen by by eapply elem_of_keys_lookup.
    by rewrite (stateAfter_onlyAt _ _ i p), Hnew.
  - eexists. split; [by apply Update_view|]. by rewrite Hbefore.
Qed.

Lemma first_observation_grace_witness :
  states NewTracker !! keyOf Example.quiet = None ∧
  firstAt (collector.Processes Example.cycle1) 0 Example.quiet ∧
  ∃ v,
    (Update NewTracker Example.cycle1).2 !! 0%nat = Some v ∧
    viewKey v = keyOf Example.quiet ∧
    ProcessIdleState.IsIdle v = false ∧
    ProcessIdleState.IdleDuration v = 0 ∧
    ProcessIdleState.IdleMemory v = 0%N.
Proof.
  assert (firstAt (collector.Processes Example.cycle1) 0 Example.quiet)
    as Hfirst by (split; [reflexivity|lia]).
  split; [reflexivity|]. split; [exact Hfirst|].
  exact (proj2 (first_observation_grace NewTracker Example.cycle1 0
                  Example.quiet eq_refl Hfirst)).
Defined.

(** ** Becoming active *)

(** C4. A tracked idle key whose sample [p], at the first place [i] of the
    batch where the key occurs, has utilization above zero: right after the
    sample is classified the state has last-active and last-seen times equal
    to the cycle's time stamp and is not idle, whatever its [IdleSince] was,
    and the view returned is not idle with zero idle duration and zero idle
    memory.  When the key occurs nowhere else in the batch this is the state
    the tracker holds when [Update] returns. *)
Theorem active_clears_idle (t : Tracker) (snap : collector.Snapshot)
    (i : nat) (p : collector.ProcessSample) (st : processState) :
  states t !! keyOf p = Some st →
  IsIdle st = true →
  firstAt (collector.Processes snap) i p →
  (0 < collector.SmUtil p)%N →
  (∃ st',
     tracked (midCycle t snap (S i)) !! keyOf p = Some st' ∧
     LastActiveTime st' = collector.Timestamp snap ∧
     LastSeenTime st' = collector.Timestamp snap ∧
     FirstSeenTime st' = FirstSeenTime st ∧
     IsIdle st' = false ∧
     (onlyAt (collector.Processes snap) i p →
      states (Update t snap).1 !! keyOf p = Some st')) ∧
  (∃ v,
     (Update t snap).2 !! i = Some v ∧
     viewKey v = keyOf p ∧
     ProcessIdleState.IsIdle v = false ∧
     ProcessIdleState.IdleDuration v = 0 ∧
     ProcessIdleState.IdleMemory v = 0%N).
Proof.
  intros Hst Hidle Hfirst Hu. pose proof Hfirst as [Hi _].
  assert (tracked (midCycle t snap i) !! keyOf p = Some st) as Hbefore.
  { rewrite midCycle_tracked, stateAfter_absent; [done|].
    by apply keys_take_firstAt. }
  split.
  - eexists. split.
    { rewrite (midCycle_S _ _ _ _ Hi), Hbefore.
      by rewrite classify_active by done. }
    repeat (split; [done|]).
    intros Honly. rewrite Update_lookup_seen by by eapply elem_of_keys_lookup.
    by rewrite (stateAfter_onlyAt _ _ i p), Hst, classify_active.
  - eexists. split; [by apply Update_view|].
    by rewrite Hbefore, classify_active.
Qed.

Lemma active_clears_idle_witness :
  states Example.after3 !! keyOf Example.busy = Some Example.idleSince5 ∧
  IsIdle Example.idleSince5 = true ∧
  firstAt (collector.Processes Example.cycle4) 0 Example.busy ∧
  (0 < collector.SmUtil Example.busy)%N ∧
  ∃ v,
    (Update Example.after3 Example.cycle4).2 !! 0%nat = Some v ∧
    viewKey v = keyOf Example.busy ∧
    ProcessIdleState.IsIdle v = false ∧
    ProcessIdleState.IdleDuration v = 0 ∧
    ProcessIdleState.IdleMemory v = 0%N.
Proof.
  assert (states Example.after3 !! keyOf Example.busy
          = Some Example.idleSince5) as Hst by (vm_compute; reflexivity).
  assert (firstAt (collector.Processes Example.cycle4) 0 Example.busy)
    as Hfirst by (split; [reflexivity|lia]).
  assert (0 < collector.SmUtil Example.busy)%N as Hu by reflexivity.
  repeat (split; [done|]).
  exact (proj2 (active_clears_idle Example.after3 Example.cycle4 0
                  Example.busy Example.idleSince5 Hst eq_refl Hfirst Hu)).
Defined.

(** ** The two-strikes rule *)

(** What one cycle does to a key that occurs once in its batch. *)
Lemma Update_onlyAt (t : Tracker) (snap : collector.Snapshot)
    (i : nat) (p : collector.ProcessSample) :
  onlyAt (collector.Processes snap) i p →
  let st := classify (collector.Timestamp snap) p (states t !! keyOf p) in
  states (Update t snap).1 !! keyOf p = Some st ∧
  (Update t snap).2 !! i
  = Some (emit (collector.Timestamp snap) (collector.ProcessNames snap) p st).
Proof.
  intros Honly st. pose proof Honly as [Hi _]. split.
  - rewrite Update_lookup_seen by by eapply elem_of_keys_lookup.
    by rewrite (stateAfter_onlyAt _ _ i p).
  - rewrite (Update_view _ _ _ _ Hi), midCycle_tracked.
    rewrite stateAfter_absent; [done|].
    by apply keys_take_firstAt, onlyAt_firstAt.
Qed.

(** C3. Three cycles in a row, at [t0], [t1] and [t2], each with one sample
    of a key that was not tracked before the first; the samples of the
    second and third cycle have utilization zero (so may the first: its
    utilization plays no part).  The view of the second cycle is idle with
    idle duration zero, and the state then has [IdleSince = t1]; the view
    of the third cycle is idle with idle duration [t2.Sub(t1)], which is
    [t2 - t1] whenever [t1 < t2] and the difference is a duration. *)
Theorem two_strikes_idle (t : Tracker) (s0 s1 s2 : collector.Snapshot)
    (i0 i1 i2 : nat) (p0 p1 p2 : collector.ProcessSample) :
  states t !! keyOf p0 = None →
  onlyAt (collector.Processes s0) i0 p0 →
  onlyAt (collector.Processes s1) i1 p1 →
  onlyAt (collector.Processes s2) i2 p2 →
  keyOf p1 = keyOf p0 →
  keyOf p2 = keyOf p0 →
  collector.SmUtil p1 = 0%N →
  collector.SmUtil p2 = 0%N →
  let r0 := Update t s0 in
  let r1 := Update r0.1 s1 in
  let r2 := Update r1.1 s2 in
  (∃ v1 st1,
     r1.2 !! i1 = Some v1 ∧
     ProcessIdleState.IsIdle v1 = true ∧
     ProcessIdleState.IdleDuration v1 = 0 ∧
     states r1.1 !! keyOf p0 = Some st1 ∧
     IdleSince st1 = collector.Timestamp s1) ∧
  (∃ v2,
     r2.2 !! i2 = Some v2 ∧
     ProcessIdleState.IsIdle v2 = true ∧
     ProcessIdleState.IdleDuration v2
     = time.Sub (collector.Timestamp s2) (collector.Timestamp s1) ∧
     (collector.Timestamp s1 < collector.Timestamp s2 →
      collector.Timestamp s2 - collector.Timestamp s1 ≤ time.maxDuration →
      ProcessIdleState.IdleDuration v2
      = collector.Timestamp s2 - collector.Timestamp s1)).
Proof.
  intros Hnew H0 H1 H2 Hk1 Hk2 Hu1 Hu2 r0 r1 r2.
  destruct (Update_onlyAt t s0 i0 p0 H0) as [Hst0 _].
  rewrite Hnew, classify_new in Hst0. fold r0 in Hst0.
  destruct (Update_onlyAt r0.1 s1 i1 p1 H1) as [Hst1 Hv1].
  rewrite Hk1, Hst0, classify_silent in Hst1, Hv1 by done.
  fold r1 in Hst1, Hv1. cbn [fresh IsIdle IdleSince] in Hst1, Hv1.
  destruct (Update_onlyAt r1.1 s2 i2 p2 H2) as [_ Hv2].
  rewrite Hk2, Hst1, classify_silent in Hv2 by done.
  fold r2 in Hv2. cbn [IsIdle IdleSince] in Hv2.
  split.
  - eexists _, _. split; [exact Hv1|]. split; [done|].
    split; [cbn; apply Sub_diag|]. by split; [exact Hst1|].
  - eexists. split; [exact Hv2|]. split; [done|]. split; [done|].
    intros Hlt Hfit. cbn. apply Sub_exact.
    unfold time.minDuration, time.maxDuration in *. lia.
Qed.

Lemma two_strikes_idle_witness :
  states NewTracker !! keyOf Example.quiet = None ∧
  onlyAt (collector.Processes Example.cycle1) 0 Example.quiet ∧
  onlyAt (collector.Processes Example.cycle2) 0 Example.quiet ∧
  onlyAt (collector.Processes Example.cycle3) 0 Example.quiet ∧
  collector.SmUtil Example.quiet = 0%N ∧
  ∃ v2,
    (Update Example.after2 Example.cycle3).2 !! 0%nat = Some v2 ∧
    ProcessIdleState.IsIdle v2 = true ∧
    ProcessIdleState.IdleDuration v2
    = time.Sub (collector.Timestamp Example.cycle3)
               (collector.Timestamp Example.cycle2) ∧
    (collector.Timestamp Example.cycle2 < collector.Timestamp Example.cycle3 →
     collector.Timestamp Example.cycle3 - collector.Timestamp Example.cycle2
     ≤ time.maxDuration →
     ProcessIdleState.IdleDuration v2
     = collector.Timestamp Example.cycle3
       - collector.Timestamp Example.cycle2).
Proof.
  assert (onlyAt [Example.quiet] 0 Example.quiet) as Honly.
  { split; [reflexivity|].
    intros [|j] q Hj _; [reflexivity|discriminate Hj]. }
  split; [reflexivity|].
  split; [exact Honly|]. split; [exact Honly|].
  split; [exact Honly|]. split; [reflexivity|].
  exact (proj2 (two_strikes_idle NewTracker
                  Example.cycle1 Example.cycle2 Example.cycle3 0 0 0
                  Example.quiet Example.quiet Example.quiet
                  eq_refl Honly Honly Honly
                  eq_refl eq_refl eq_refl eq_refl)).
Defined.

(** ** The invariant of the tracked states *)

Lemma nonDecreasing_head a r :
  nonDecreasing (a :: r) = true → ∀ y, y ∈ r → a ≤ y.
Proof.
  revert a. induction r as [|b r IH]; intros a Hs y Hy.
  - by apply elem_of_nil in Hy.
  - cbn in Hs. apply andb_true_iff in Hs as [Hab Hs]. apply Z.leb_le in Hab.
    apply elem_of_cons in Hy as [->|Hy]; [done|].
    specialize (IH b Hs y Hy). lia.
Qed.

Lemma nonDecreasing_tail a r :
  nonDecreasing (a :: r) = true → nonDecreasing r = true.
Proof.
  destruct r as [|b r]; [done|]. cbn. intros Hs.
  by apply andb_true_iff in Hs as [_ Hs].
Qed.

Lemma nonDecreasing_snoc ts x :
  nonDecreasing (ts ++ [x]) = true →
  nonDecreasing ts = true ∧ ∀ y, y ∈ ts → y ≤ x.
Proof.
  induction ts as [|a r IH]; intros Hs.
  - split; [done|]. intros y Hy. by apply elem_of_nil in Hy.
  - rewrite <- app_comm_cons in Hs.
    destruct (IH (nonDecreasing_tail _ _ Hs)) as [Hr Hle]. split.
    + destruct r as [|b r]; [done|].
      cbn in Hs. apply andb_true_iff in Hs as [Hab _].
      cbn. by rewrite Hab.
    + intros y Hy. apply elem_of_cons in Hy as [->|Hy]; [|by apply Hle].
      apply (nonDecreasing_head _ _ Hs). apply elem_of_app. right.
      by apply list_elem_of_singleton.
Qed.

Lemma run_snoc t snaps snap :
  run t (snaps ++ [snap]) = (Update (run t snaps) snap).1.
Proof. unfold run. by rewrite foldl_app. Qed.

Section invariant.

Context (now : Z) (hist : list Z).

Lemma wellTimed_mono hi hi' st :
  hi ≤ hi' → wellTimed hi hist st → wellTimed hi' hist st.
Proof. intros Hle [Hseen Hidle]. split; [lia|done]. Qed.

(** Classifying the samples of a key at [now], which is no earlier than
    the state was last seen, keeps the state well timed. *)
Lemma wellTimed_stateAfter k ps o :
  (∀ st, o = Some st → wellTimed now hist st) →
  ∀ st, stateAfter now k ps o = Some st → wellTimed now (hist ++ [now]) st.
Proof.
  intros Ho. induction ps as [|p ps IH] using rev_ind; intros st Hst.
  - cbn in Hst. destruct (Ho st Hst) as [Hseen Hidle]. split; [done|].
    intros Hi. destruct (Hidle Hi) as [Hin Hle]. split; [|done].
    apply elem_of_app. by left.
  - rewrite stateAfter_snoc in Hst. case_decide; [|by apply IH].
    injection Hst as <-.
    destruct (stateAfter now k ps o) as [st0|] eqn:Hst0; [|by split].
    destruct (IH st0 eq_refl) as [Hseen Hidle].
    destruct (N.ltb_spec 0 (collector.SmUtil p)) as [Hu|Hu].
    + rewrite classify_active by done. by split.
    + rewrite classify_silent by lia. split; [done|]. intros _. cbn.
      destruct (IsIdle st0) eqn:Hi0.
      * destruct (Hidle eq_refl) as [Hin Hle]. split; [done|lia].
      * split; [|lia]. apply elem_of_app. right.
        by apply list_elem_of_singleton.
Qed.

End invariant.

(** One cycle keeps every tracked state well timed, when its time stamp is
    no earlier than the states were last seen. *)
Lemma wellTimed_Update t snap hist :
  (∀ k st, states t !! k = Some st →
           wellTimed (collector.Timestamp snap) hist st) →
  ∀ k st, states (Update t snap).1 !! k = Some st →
          wellTimed (collector.Timestamp snap)
            (hist ++ [collector.Timestamp snap]) st.
Proof.
  intros Hinv k st Hst.
  destruct (decide (k ∈ keys (collector.Processes snap))) as [Hin|Hout].
  - rewrite Update_lookup_seen in Hst by done.
    eapply wellTimed_stateAfter; [|exact Hst]. intros st0. apply Hinv.
  - rewrite Update_lookup_unseen in Hst by done.
    destruct (states t !! k) as [st0|] eqn:Hst0; [|done].
    case_match; [done|]. injection Hst as <-.
    destruct (Hinv k st0 Hst0) as [Hseen Hidle]. split; [done|].
    intros Hi. destruct (Hidle Hi) as [Hh Hle]. split; [|done].
    apply elem_of_app. by left.
Qed.

Lemma wellTimed_run timeout snaps :
  nonDecreasing (timestamps snaps) = true →
  ∀ hi, (∀ ts, ts ∈ timestamps snaps → ts ≤ hi) →
  ∀ k st,
    states (run {| states := ∅; staleTimeout := timeout |} snaps) !! k
    = Some st →
    wellTimed hi (timestamps snaps) st.
Proof.
  induction snaps as [|snap snaps IH] using rev_ind; intros Hmono hi Hhi k st Hst.
  - cbn in Hst. by rewrite lookup_empty in Hst.
  - unfold timestamps in *. rewrite map_app in *. cbn [map] in *.
    rewrite run_snoc in Hst.
    destruct (nonDecreasing_snoc _ _ Hmono) as [Hmono' Hle].
    apply (wellTimed_mono _ (collector.Timestamp snap)).
    + apply Hhi, elem_of_app. right. by apply list_elem_of_singleton.
    + eapply wellTimed_Update; [|exact Hst]. by apply IH.
Qed.

(** The first sample of a key of the batch. *)
Lemma firstAt_exists ps k :
  k ∈ keys ps → ∃ i p, firstAt ps i p ∧ keyOf p = k.
Proof.
  induction ps as [|q ps IH]; intros Hk.
  - by apply elem_of_nil in Hk.
  - destruct (decide (keyOf q = k)) as [Heq|Hne].
    + exists 0%nat, q. split; [|done]. split; [done|]. lia.
    + unfold keys in Hk. cbn in Hk.
      apply elem_of_cons in Hk as [Hk|Hk]; [congruence|].
      destruct (IH Hk) as (i & p & [Hi Hfirst] & Hp).
      exists (S i), p. split; [|done]. split; [done|].
      intros [|j] q' Hlt Hj.
      * injection Hj as <-. congruence.
      * apply (Hfirst j); [lia|done].
Qed.

Lemma stateAfter_created now k ps st :
  stateAfter now k ps None = Some st → FirstSeenTime st = now.
Proof.
  revert st. induction ps as [|p ps IH] using rev_ind; intros st Hst; [done|].
  rewrite stateAfter_snoc in Hst. case_decide; [|by apply IH].
  injection Hst as <-.
  destruct (stateAfter now k ps None) as [st0|]; [|done].
  rewrite classify_FirstSeenTime. by apply IH.
Qed.

(** C5. In the tracker reached from a new one by cycles whose time stamps
    never go back, a tracked state that is idle has an [IdleSince] that was
    assigned (it is the time stamp of one of the cycles) and is no later
    than its last-seen time.  A further cycle gives a state to an untracked
    key only if the batch holds the key, and then creates it at the first
    sample of the key; the classification loop never removes a tracked key;
    and when a tracked key is gone after the cycle, it was out of the batch
    and past the time-out, which is the test of the sweep. *)
Theorem tracked_state_invariant (timeout : Z)
    (snaps : list collector.Snapshot) (snap : collector.Snapshot)
    (k : processKey) :
  nonDecreasing (timestamps snaps) = true →
  let t := run {| states := ∅; staleTimeout := timeout |} snaps in
  (∀ st, states t !! k = Some st → IsIdle st = true →
         IdleSince st ∈ timestamps snaps ∧ IdleSince st ≤ LastSeenTime st) ∧
  (states t !! k = None →
   ∀ st', states (Update t snap).1 !! k = Some st' →
          FirstSeenTime st' = collector.Timestamp snap ∧
          ∃ i p, firstAt (collector.Processes snap) i p ∧ keyOf p = k ∧
                 tracked (midCycle t snap (S i)) !! k
                 = Some (fresh (collector.Timestamp snap))) ∧
  (∀ st, states t !! k = Some st →
         (∀ n, is_Some (tracked (midCycle t snap n) !! k)) ∧
         (states (Update t snap).1 !! k = None →
          (k ∉ keys (collector.Processes snap)) ∧
          (staleTimeout t
           < time.Sub (collector.Timestamp snap) (LastSeenTime st)))).
Proof.
  intros Hmono t. split; [|split].
  - intros st Hst Hidle.
    assert (∃ hi, ∀ ts, ts ∈ timestamps snaps → ts ≤ hi) as [hi Hhi].
    { clear. induction (timestamps snaps) as [|a l [hi IH]].
      - exists 0. intros ts Hts. by apply elem_of_nil in Hts.
      - exists (Z.max a hi). intros ts Hts.
        apply elem_of_cons in Hts as [->|Hts]; [lia|].
        specialize (IH ts Hts). lia. }
    destruct (wellTimed_run timeout snaps Hmono hi Hhi k st Hst) as [_ Hw].
    by apply Hw.
  - intros Hnone st' Hst'.
    destruct (decide (k ∈ keys (collector.Processes snap))) as [Hin|Hout].
    + rewrite Update_lookup_seen, Hnone in Hst' by done.
      split; [by eapply stateAfter_created|].
      destruct (firstAt_exists _ _ Hin) as (i & p & Hfirst & <-).
      exists i, p. split; [done|]. split; [done|].
      by rewrite midCycle_tracked, stateAfter_firstAt, Hnone.
    + rewrite Update_lookup_unseen, Hnone in Hst' by done. done.
  - intros st Hst. split.
    + intros n. rewrite midCycle_tracked. apply stateAfter_is_Some.
      by rewrite Hst.
    + intros Hgone.
      destruct (decide (k ∈ keys (collector.Processes snap))) as [Hin|Hout].
      * rewrite Update_lookup_seen in Hgone by done.
        destruct (stateAfter_present (collector.Timestamp snap) k _
                    (states t !! k) Hin) as [st' Hst'].
        congruence.
      * split; [done|].
        rewrite Update_lookup_unseen, Hst in Hgone by done.
        case_match eqn:Hlt; [|done]. by apply Z.ltb_lt in Hlt.
Qed.

Lemma tracked_state_invariant_witness :
  nonDecreasing (timestamps [Example.cycle1; Example.cycle2]) = true ∧
  states (run {| states := ∅; staleTimeout := 30 * time.Second |}
            [Example.cycle1; Example.cycle2]) !! keyOf Example.quiet
  = Some Example.idleAt5 ∧
  IsIdle Example.idleAt5 = true ∧
  IdleSince Example.idleAt5 ∈ timestamps [Example.cycle1; Example.cycle2] ∧
  IdleSince Example.idleAt5 ≤ LastSeenTime Example.idleAt5.
Proof.
  assert (states (run {| states := ∅; staleTimeout := 30 * time.Second |}
                    [Example.cycle1; Example.cycle2]) !! keyOf Example.quiet
          = Some Example.idleAt5) as Hst by (vm_compute; reflexivity).
  split; [reflexivity|]. split; [exact Hst|]. split; [reflexivity|].
  exact (proj1 (tracked_state_invariant (30 * time.Second)
                  [Example.cycle1; Example.cycle2] Example.cycle3
                  (keyOf Example.quiet) eq_refl)
           Example.idleAt5 Hst eq_refl).
Defined.

(** ** The staleness sweep *)

Lemma run_cons t snap snaps :
  run t (snap :: snaps) = run (Update t snap).1 snaps.
Proof. done. Qed.

(** A key that is not tracked and occurs in no batch stays untracked. *)
Lemma run_untracked t snaps k :
  states t !! k = None →
  (∀ s, s ∈ snaps → k ∉ keys (collector.Processes s)) →
  states (run t snaps) !! k = None.
Proof.
  revert t. induction snaps as [|snap snaps IH]; intros t Hk Hout; [done|].
  rewrite run_cons. apply IH.
  - rewrite Update_lookup_unseen, Hk; [done|]. apply Hout. by left.
  - intros s Hs. apply Hout. by right.
Qed.

(** The views of a cycle are about keys of its batch. *)
Lemma Update_viewKey t snap v :
  v ∈ (Update t snap).2 → viewKey v ∈ keys (collector.Processes snap).
Proof.
  intros Hv. apply list_elem_of_lookup in Hv as [i Hi].
  destruct (Update_view_inv _ _ _ _ Hi) as (p & Hp & ->).
  rewrite emit_viewKey. by eapply elem_of_keys_lookup.
Qed.

(** C6. For a key [k] tracked with state [st] when a cycle starts: the key
    is gone when [Update] returns if and only if it is out of the batch and
    [now.Sub(st.LastSeenTime) > staleTimeout], strictly; with a time-out
    that is a duration below the largest one this is
    [now - st.LastSeenTime > staleTimeout].  Out of the batch and within the
    time-out, the key keeps its state as it was and no view of the cycle is
    about it.  Once the key is gone, and after any number of cycles without
    it, the cycle in which it comes back treats its first sample as a first
    observation: a new state, and a view that is not idle with zero idle
    duration and zero idle memory. *)
Theorem staleness_sweep (t : Tracker) (snap : collector.Snapshot)
    (k : processKey) (st : processState) :
  states t !! k = Some st →
  let now := collector.Timestamp snap in
  let t' := (Update t snap).1 in
  (states t' !! k = None ↔
     (k ∉ keys (collector.Processes snap)) ∧
     (staleTimeout t < time.Sub now (LastSeenTime st))) ∧
  (time.minDuration ≤ staleTimeout t < time.maxDuration →
   (states t' !! k = None ↔
      (k ∉ keys (collector.Processes snap)) ∧
      (staleTimeout t < now - LastSeenTime st))) ∧
  (k ∉ keys (collector.Processes snap) →
   ¬ (staleTimeout t < time.Sub now (LastSeenTime st)) →
   states t' !! k = Some st ∧
   ∀ v, v ∈ (Update t snap).2 → viewKey v ≠ k) ∧
  (states t' !! k = None →
   ∀ (later : list collector.Snapshot) (back : collector.Snapshot)
     (i : nat) (p : collector.ProcessSample),
     (∀ s, s ∈ later → k ∉ keys (collector.Processes s)) →
     firstAt (collector.Processes back) i p →
     keyOf p = k →
     let u := run t' later in
     tracked (midCycle u back (S i)) !! k
     = Some (fresh (collector.Timestamp back)) ∧
     ∃ v, (Update u back).2 !! i = Some v ∧
          viewKey v = k ∧
          ProcessIdleState.IsIdle v = false ∧
          ProcessIdleState.IdleDuration v = 0 ∧
          ProcessIdleState.IdleMemory v = 0%N).
Proof.
  intros Hst now t'.
  assert (states t' !! k = None ↔
            (k ∉ keys (collector.Processes snap)) ∧
            (staleTimeout t < time.Sub now (LastSeenTime st))) as Hiff.
  { subst t' now.
    destruct (decide (k ∈ keys (collector.Processes snap))) as [Hin|Hout].
    - rewrite Update_lookup_seen by done.
      destruct (stateAfter_present (collector.Timestamp snap) k _
                  (states t !! k) Hin) as [st' ->].
      split; [done|]. by intros [? _].
    - rewrite Update_lookup_unseen, Hst by done.
      destruct (Z.ltb_spec (staleTimeout t)
                  (time.Sub (collector.Timestamp snap) (LastSeenTime st))).
      + by split.
      + split; [done|]. intros [_ ?]. lia. }
  split; [exact Hiff|]. split; [|split].
  - intros Hfit. rewrite Hiff. by rewrite (Sub_gt _ _ _ Hfit).
  - intros Hout Hwithin. split.
    + subst t' now. rewrite Update_lookup_unseen, Hst by done.
      case_match eqn:Hlt; [|done]. by apply Z.ltb_lt in Hlt.
    + intros v Hv Hk. apply Update_viewKey in Hv. by rewrite Hk in Hv.
  - intros Hgone later back i p Hlater Hfirst Hp u. subst k.
    pose proof Hfirst as [Hi _].
    assert (states u !! keyOf p = None) as Hu by by apply run_untracked.
    assert (tracked (midCycle u back i) !! keyOf p = None) as Hbefore.
    { rewrite midCycle_tracked, stateAfter_absent; [done|].
      by apply keys_take_firstAt. }
    split.
    + by rewrite midCycle_tracked, stateAfter_firstAt, Hu.
    + eexists. split; [by apply Update_view|]. by rewrite Hbefore.
Qed.

Lemma staleness_sweep_witness :
  states Example.after1 !! keyOf Example.quiet = Some (fresh 0) ∧
  (keyOf Example.quiet ∉ keys (collector.Processes Example.late)) ∧
  states (Update Example.after1 Example.late).1 !! keyOf Example.quiet = None.
Proof.
  assert (states Example.after1 !! keyOf Example.quiet = Some (fresh 0))
    as Hst by (vm_compute; reflexivity).
  assert (keyOf Example.quiet ∉ keys (collector.Processes Example.late))
    as Hout by apply not_elem_of_nil.
  split; [exact Hst|]. split; [exact Hout|].
  apply (proj1 (staleness_sweep Example.after1 Example.late
                  (keyOf Example.quiet) (fresh 0) Hst)).
  split; [exact Hout|]. reflexivity.
Defined.

(** ** Keys are pairs *)

Lemma keyOf_inj_GPU p q : keyOf p = keyOf q → collector.GPU p = collector.GPU q.
Proof. unfold keyOf. congruence. Qed.

(** C9. One turn of the loop of [Update], on a sample [p], leaves what is
    stored under every key other than the key of [p] as it was; a sample
    [q] with the process id of [p] on another device has another key, so
    its state is left as it was.  Over a whole batch, what is stored under
    a key comes from what was stored under it before and from the samples
    of that key alone, and so it is for the tracker [Update] returns. *)
Theorem independent_keys (now : Z) (names : gmap N string) (c : cycle)
    (p q : collector.ProcessSample) (k : processKey)
    (ps : list collector.ProcessSample)
    (t : Tracker) (snap : collector.Snapshot) :
  (k ≠ keyOf p → tracked (visit now names c p) !! k = tracked c !! k) ∧
  (collector.PID q = collector.PID p →
   collector.GPU q ≠ collector.GPU p →
   keyOf q ≠ keyOf p ∧
   tracked (visit now names c p) !! keyOf q = tracked c !! keyOf q) ∧
  tracked (classifyAll now names ps c) !! k
  = stateAfter now k (filter (fun s => keyOf s = k) ps) (tracked c !! k) ∧
  (k ∈ keys (collector.Processes snap) →
   states (Update t snap).1 !! k
   = stateAfter (collector.Timestamp snap) k
       (filter (fun s => keyOf s = k) (collector.Processes snap))
       (states t !! k)).
Proof.
  assert (∀ k', k' ≠ keyOf p →
                tracked (visit now names c p) !! k' = tracked c !! k') as Hframe.
  { intros k' Hne. cbn. by rewrite lookup_insert_ne. }
  split; [by apply Hframe|]. split; [|split].
  - intros _ Hgpu.
    assert (keyOf q ≠ keyOf p) as Hne
      by (intros Heq; by apply Hgpu, keyOf_inj_GPU).
    split; [done|]. by apply Hframe.
  - by rewrite tracked_classifyAll, stateAfter_filter.
  - intros Hin. by rewrite Update_lookup_seen, stateAfter_filter.
Qed.

Lemma independent_keys_witness :
  collector.PID Example.onGpu1 = collector.PID Example.onGpu0 ∧
  collector.GPU Example.onGpu1 ≠ collector.GPU Example.onGpu0 ∧
  keyOf Example.onGpu1 ≠ keyOf Example.onGpu0 ∧
  tracked (visit 0 ∅ (start Example.after1) Example.onGpu0)
    !! keyOf Example.onGpu1
  = tracked (start Example.after1) !! keyOf Example.onGpu1.
Proof.
  assert (collector.GPU Example.onGpu1 ≠ collector.GPU Example.onGpu0)
    as Hgpu by (cbn; lia).
  split; [reflexivity|]. split; [exact Hgpu|].
  exact (proj1 (proj2 (independent_keys 0 ∅ (start Example.after1)
                         Example.onGpu0 Example.onGpu1
                         (keyOf Example.onGpu1) [] NewTracker Example.cycle1))
           eq_refl Hgpu).
Defined.

(** ** The same key twice in one batch *)

Lemma take_split {A} (l : list A) i j :
  (i ≤ j)%nat → take j l = take i l ++ drop i (take j l).
Proof.
  intros Hle. rewrite <- (take_drop i (take j l)) at 1.
  by rewrite take_take, Nat.min_l.
Qed.

(** From the first sample of a key to its next one. *)
Lemma stateAfter_second now ps i j p o :
  firstAt ps i p →
  (i < j)%nat →
  (∀ l q, (i < l < j)%nat → ps !! l = Some q → keyOf q ≠ keyOf p) →
  stateAfter now (keyOf p) (take j ps) o = Some (classify now p o).
Proof.
  intros Hfirst Hlt Hbetween.
  rewrite (take_split ps (S i) j) by lia.
  rewrite stateAfter_app, stateAfter_firstAt by done.
  apply stateAfter_absent. intros Hin. unfold keys in Hin.
  apply list_elem_of_fmap in Hin as (q & Hq & Hin).
  apply list_elem_of_lookup in Hin as [l Hl].
  rewrite lookup_drop in Hl. apply lookup_take_Some in Hl as [Hl Hlj].
  apply (Hbetween (S i + l)%nat q); [lia|done|done].
Qed.

(** C10. [Update] returns one view per sample of the batch, the view at a
    place being about the sample at that place.  A sample whose key occurs
    earlier in the same batch finds the key tracked, and its view is the one
    the rules for a tracked key give from the state the earlier samples
    left; only the first sample of an untracked key gets the grace.  So for
    an untracked key whose first two samples in the batch are at [i] and
    [j], the second with utilization zero, the view at [i] is not idle and
    the view at [j] is idle, with idle duration zero and the sample's
    memory as idle memory. *)
Theorem duplicate_key_in_batch (t : Tracker) (snap : collector.Snapshot) :
  let now := collector.Timestamp snap in
  let names := collector.ProcessNames snap in
  let ps := collector.Processes snap in
  length (Update t snap).2 = length ps ∧
  (∀ l q, ps !! l = Some q →
     ∃ v, (Update t snap).2 !! l = Some v ∧
          viewKey v = keyOf q ∧
          ProcessIdleState.UsedMemory v = collector.UsedMemory q ∧
          ProcessIdleState.SmUtil v = collector.SmUtil q) ∧
  (∀ l q, ps !! l = Some q → keyOf q ∈ keys (take l ps) →
     ∃ st, tracked (midCycle t snap l) !! keyOf q = Some st ∧
           (Update t snap).2 !! l
           = Some (emit now names q (classify now q (Some st)))) ∧
  (∀ i j pi pj,
     states t !! keyOf pi = None →
     firstAt ps i pi →
     (i < j)%nat →
     ps !! j = Some pj →
     keyOf pj = keyOf pi →
     (∀ l q, (i < l < j)%nat → ps !! l = Some q → keyOf q ≠ keyOf pi) →
     collector.SmUtil pj = 0%N →
     (∃ vi, (Update t snap).2 !! i = Some vi ∧
            ProcessIdleState.IsIdle vi = false ∧
            ProcessIdleState.IdleDuration vi = 0 ∧
            ProcessIdleState.IdleMemory vi = 0%N) ∧
     (∃ vj, (Update t snap).2 !! j = Some vj ∧
            ProcessIdleState.IsIdle vj = true ∧
            ProcessIdleState.IdleDuration vj = 0 ∧
            ProcessIdleState.IdleMemory vj = collector.UsedMemory pj)).
Proof.
  cbv zeta. split; [apply Update_length|]. split; [|split].
  - intros l q Hl. eexists. by split; [by apply Update_view|].
  - intros l q Hl Hin.
    destruct (stateAfter_present (collector.Timestamp snap) (keyOf q) _
                (states t !! keyOf q) Hin) as [st Hst].
    exists st. rewrite midCycle_tracked. split; [exact Hst|].
    by rewrite (Update_view _ _ _ _ Hl), midCycle_tracked, Hst.
  - intros i j pi pj Hnew Hfirst Hlt Hj Hkey Hbetween Hu.
    pose proof Hfirst as [Hi _]. split.
    + eexists. split; [by apply Update_view|].
      rewrite midCycle_tracked, stateAfter_absent, Hnew; [done|].
      by apply keys_take_firstAt.
    + eexists. split; [by apply Update_view|].
      rewrite midCycle_tracked, Hkey.
      rewrite (stateAfter_second _ _ i j pi) by done.
      rewrite Hnew, classify_new, classify_silent by done. cbn.
      by rewrite Sub_diag.
Qed.

Lemma duplicate_key_in_batch_witness :
  states NewTracker !! keyOf Example.quiet = None ∧
  firstAt (collector.Processes Example.twice) 0 Example.quiet ∧
  collector.Processes Example.twice !! 1%nat = Some Example.quiet ∧
  (∃ vi, (Update NewTracker Example.twice).2 !! 0%nat = Some vi ∧
         ProcessIdleState.IsIdle vi = false ∧
         ProcessIdleState.IdleDuration vi = 0 ∧
         ProcessIdleState.IdleMemory vi = 0%N) ∧
  (∃ vj, (Update NewTracker Example.twice).2 !! 1%nat = Some vj ∧
         ProcessIdleState.IsIdle vj = true ∧
         ProcessIdleState.IdleDuration vj = 0 ∧
         ProcessIdleState.IdleMemory vj = collector.UsedMemory Example.quiet).
Proof.
  assert (firstAt (collector.Processes Example.twice) 0 Example.quiet)
    as Hfirst by (split; [reflexivity|lia]).
  split; [reflexivity|]. split; [exact Hfirst|]. split; [reflexivity|].
  apply (proj2 (proj2 (proj2 (duplicate_key_in_batch NewTracker Example.twice)))
           0%nat 1%nat Example.quiet Example.quiet);
    [reflexivity|exact Hfirst|lia|reflexivity|reflexivity|lia|reflexivity].
Defined.

(** ** The sample merger *)

Import nvml.

Lemma maxTimeStamp_max lastTS utilSamples :
  collector.maxTimeStamp lastTS utilSamples
  = N.max lastTS (maxSampleTime utilSamples).
Proof.
  revert lastTS. induction utilSamples as [|s r IH]; intros lastTS.
  - cbn. lia.
  - unfold collector.maxTimeStamp in *. cbn [foldl]. rewrite IH.
    unfold maxSampleTime. cbn [map foldr].
    destruct (N.ltb_spec lastTS (ProcessUtilizationSample.TimeStamp s)); lia.
Qed.

Lemma maxUtil_cons pid s r :
  maxUtil pid (s :: r)
  = if decide (ProcessUtilizationSample.Pid s = pid)
    then N.max (ProcessUtilizationSample.SmUtil s) (maxUtil pid r)
    else maxUtil pid r.
Proof.
  unfold maxUtil. case_decide.
  - by rewrite filter_cons_True.
  - by rewrite filter_cons_False.
Qed.

(** Every sample of the process is below the maximum. *)
Lemma maxUtil_upper pid utilSamples s :
  s ∈ utilSamples → ProcessUtilizationSample.Pid s = pid →
  (ProcessUtilizationSample.SmUtil s ≤ maxUtil pid utilSamples)%N.
Proof.
  intros Hs Hpid. induction utilSamples as [|a r IH].
  - by apply elem_of_nil in Hs.
  - rewrite maxUtil_cons. apply elem_of_cons in Hs as [->|Hs].
    + rewrite decide_True by done. lia.
    + specialize (IH Hs). case_decide; lia.
Qed.

(** The maximum is the utilization of one of the samples of the process,
    or zero when it has none. *)
Lemma maxUtil_attained pid utilSamples :
  (∃ s, s ∈ utilSamples ∧ ProcessUtilizationSample.Pid s = pid ∧
        ProcessUtilizationSample.SmUtil s = maxUtil pid utilSamples) ∨
  ((∀ s, s ∈ utilSamples → ProcessUtilizationSample.Pid s ≠ pid) ∧
   maxUtil pid utilSamples = 0%N).
Proof.
  induction utilSamples as [|a r IH].
  - right. split; [|done]. intros s Hs. by apply elem_of_nil in Hs.
  - rewrite maxUtil_cons. destruct (decide _) as [Ha|Ha].
    + left.
      destruct (N.max_spec (ProcessUtilizationSample.SmUtil a) (maxUtil pid r))
        as [[Hlt ->]|[Hle ->]].
      * destruct IH as [(s & Hs & Hpid & Hmax)|[_ Hzero]]; [|lia].
        exists s. split; [by right|done].
      * exists a. split; [by left|done].
    + destruct IH as [(s & Hs & Hpid & Hmax)|[Hnone Hzero]].
      * left. exists s. split; [by right|done].
      * right. split; [|done]. intros s Hs.
        apply elem_of_cons in Hs as [->|Hs]; [done|by apply Hnone].
Qed.

(** What the map built from the samples reads at a process id. *)
Lemma buildUtilMap_lookup utilSamples pid :
  default 0%N (collector.buildUtilMap utilSamples !! pid)
  = maxUtil pid utilSamples.
Proof.
  unfold collector.buildUtilMap.
  assert (∀ m : gmap N N,
            default 0%N
              (foldl (fun (utilMap : gmap N N) s =>
                        if (default 0%N
                              (utilMap !! ProcessUtilizationSample.Pid s)
                            <? ProcessUtilizationSample.SmUtil s)%N
                        then <[ProcessUtilizationSample.Pid s :=
                                 ProcessUtilizationSample.SmUtil s]> utilMap
                        else utilMap) m utilSamples !! pid)
            = N.max (default 0%N (m !! pid)) (maxUtil pid utilSamples)) as Hgen.
  { induction utilSamples as [|s r IH]; intros m.
    - cbn. lia.
    - cbn [foldl]. rewrite IH, maxUtil_cons.
      destruct (N.ltb_spec
                  (default 0%N (m !! ProcessUtilizationSample.Pid s))
                  (ProcessUtilizationSample.SmUtil s)) as [Hlt|Hge].
      + destruct (decide _) as [Hpid|Hpid].
        * subst pid. rewrite lookup_insert_eq. cbn. lia.
        * by rewrite lookup_insert_ne.
      + destruct (decide _) as [Hpid|Hpid]; [|done]. subst pid. lia. }
  rewrite Hgen, lookup_empty. cbn. lia.
Qed.

(** The samples returned when the list of memory holders was obtained. *)
Lemma collectProcesses_samples c gpuIndex device procs :
  GetComputeRunningProcesses device = (procs, SUCCESS) →
  (collector.collectProcesses c gpuIndex device).2
  = map (collector.mergeSample gpuIndex
           (collector.buildUtilMap
              (GetProcessUtilization device (mark c gpuIndex)).1))
        procs.
Proof.
  intros Hq. unfold collector.collectProcesses. rewrite Hq. cbn [negb].
  rewrite bool_decide_eq_true_2 by done. cbn [negb].
  destruct procs as [|p procs]; [done|]. cbn [length Nat.eqb].
  unfold mark. by destruct (GetProcessUtilization device _).
Qed.

Lemma collectProcesses_failed c gpuIndex device :
  (GetComputeRunningProcesses device).2 ≠ SUCCESS →
  collector.collectProcesses c gpuIndex device = (c, []).
Proof.
  intros Hq. unfold collector.collectProcesses.
  destruct (GetComputeRunningProcesses device) as [procs ret]. cbn in Hq.
  by rewrite bool_decide_eq_false_2.
Qed.

(** C7. When the list of memory holders is obtained, the samples returned
    are one per entry of that list, in its order: the sample at a place
    carries the device index and the process id and memory of the entry at
    that place, and its utilization is the largest utilization among the
    utilization samples of that process id (those returned for the window
    that starts at the stored mark), or zero when there is none.  A process
    id that has utilization samples and is not in the list is in no sample
    returned.  When the list is not obtained nothing is returned. *)
Theorem merged_samples (c : collector.Collector) (gpuIndex : Z)
    (device : Device) :
  let procs := (GetComputeRunningProcesses device).1 in
  let ret := (GetComputeRunningProcesses device).2 in
  let utilSamples := (GetProcessUtilization device (mark c gpuIndex)).1 in
  let out := (collector.collectProcesses c gpuIndex device).2 in
  (ret = SUCCESS →
   length out = length procs ∧
   (∀ i p, procs !! i = Some p →
      ∃ s, out !! i = Some s ∧
           collector.GPU s = gpuIndex ∧
           collector.PID s = ProcessInfo.Pid p ∧
           collector.UsedMemory s = ProcessInfo.UsedGpuMemory p ∧
           collector.SmUtil s = maxUtil (ProcessInfo.Pid p) utilSamples ∧
           (∀ u, u ∈ utilSamples →
                 ProcessUtilizationSample.Pid u = ProcessInfo.Pid p →
                 (ProcessUtilizationSample.SmUtil u ≤ collector.SmUtil s)%N) ∧
           ((∃ u, u ∈ utilSamples ∧
                  ProcessUtilizationSample.Pid u = ProcessInfo.Pid p ∧
                  ProcessUtilizationSample.SmUtil u = collector.SmUtil s) ∨
            ((∀ u, u ∈ utilSamples →
                   ProcessUtilizationSample.Pid u ≠ ProcessInfo.Pid p) ∧
             collector.SmUtil s = 0%N))) ∧
   (∀ u, u ∈ utilSamples →
         (∀ p, p ∈ procs →
               ProcessInfo.Pid p ≠ ProcessUtilizationSample.Pid u) →
         ∀ s, s ∈ out → collector.PID s ≠ ProcessUtilizationSample.Pid u)) ∧
  (ret ≠ SUCCESS → out = []).
Proof.
  cbv zeta. split.
  - intros Hret.
    rewrite (collectProcesses_samples c gpuIndex device
               (GetComputeRunningProcesses device).1)
      by (destruct (GetComputeRunningProcesses device); cbn in *; congruence).
    split; [by rewrite length_map|]. split.
    + intros i p Hp. eexists. split; [by rewrite list_lookup_fmap, Hp|].
      cbn. rewrite buildUtilMap_lookup.
      repeat (split; [done|]). split.
      * intros u Hu Hpid. by apply maxUtil_upper.
      * apply maxUtil_attained.
    + intros u Hu Hnot s Hs Hpid.
      apply list_elem_of_fmap in Hs as (p & -> & Hp).
      by apply (Hnot p Hp).
  - intros Hret. by rewrite collectProcesses_failed.
Qed.

Lemma merged_samples_witness :
  (GetComputeRunningProcesses Example.gpu).2 = SUCCESS ∧
  (collector.collectProcesses collector.New 0 Example.gpu).2
  = [Example.proc 0 100 (4 * Example.GiB) 70;
     Example.proc 0 200 (8 * Example.GiB) 0] ∧
  length (collector.collectProcesses collector.New 0 Example.gpu).2
  = length (GetComputeRunningProcesses Example.gpu).1.
Proof.
  split; [reflexivity|]. split; [vm_compute; reflexivity|].
  exact (proj1 (proj1 (merged_samples collector.New 0 Example.gpu) eq_refl)).
Defined.

(** ** The high-water mark *)

Lemma mark_insert c gpuIndex ts g :
  mark {| collector.lastSampleTime :=
            <[gpuIndex := ts]> (collector.lastSampleTime c) |} g
  = if decide (gpuIndex = g) then ts else mark c g.
Proof.
  unfold mark. cbn. case_decide as Hg.
  - subst g. by rewrite lookup_insert_eq.
  - by rewrite lookup_insert_ne.
Qed.

(** The collector after a call, case by case. *)
Lemma collectProcesses_collector c gpuIndex device :
  let utilSamples := (GetProcessUtilization device (mark c gpuIndex)).1 in
  (collector.collectProcesses c gpuIndex device).1
  = if bool_decide ((GetComputeRunningProcesses device).2 = SUCCESS
                    ∧ (GetComputeRunningProcesses device).1 ≠ []
                    ∧ utilSamples ≠ [])
    then {| collector.lastSampleTime :=
              <[gpuIndex :=
                  collector.maxTimeStamp (mark c gpuIndex) utilSamples]>
                (collector.lastSampleTime c) |}
    else c.
Proof.
  cbv zeta. unfold collector.collectProcesses.
  destruct (GetComputeRunningProcesses device) as [procs ret].
  cbn [fst snd]. destruct (decide (ret = SUCCESS)) as [->|Hret].
  - rewrite bool_decide_eq_true_2 by done. cbn [negb].
    destruct procs as [|p procs].
    + cbn. rewrite bool_decide_eq_false_2; [done|]. by intros (_ & ? & _).
    + cbn [length Nat.eqb]. unfold mark.
      destruct (GetProcessUtilization device _) as [[|s utilSamples] r].
      * cbn. rewrite bool_decide_eq_false_2; [done|]. by intros (_ & _ & ?).
      * cbn [length Nat.ltb Nat.leb fst snd].
        by rewrite bool_decide_eq_true_2.
  - rewrite bool_decide_eq_false_2 by done. cbn.
    rewrite bool_decide_eq_false_2; [done|]. by intros (? & _).
Qed.

(** C8. A call for device [gpuIndex] never lowers the stored mark of the
    device and leaves the marks of the other devices as they were.  The
    collector is left exactly as it was when the utilization query returns
    no sample, and also when the query is not made (the list of memory
    holders was not obtained or is empty).  When the query returns samples
    the mark becomes the larger of its old value and the largest time
    stamp among the samples: it is advanced to that largest time stamp
    whenever the time stamp is not below the mark, which is the case for
    samples taken since the mark. *)
Theorem high_water_mark (c : collector.Collector) (gpuIndex : Z)
    (device : Device) :
  let procs := (GetComputeRunningProcesses device).1 in
  let ret := (GetComputeRunningProcesses device).2 in
  let utilSamples := (GetProcessUtilization device (mark c gpuIndex)).1 in
  let c' := (collector.collectProcesses c gpuIndex device).1 in
  (mark c gpuIndex ≤ mark c' gpuIndex)%N ∧
  (∀ g, g ≠ gpuIndex → mark c' g = mark c g) ∧
  (utilSamples = [] → c' = c) ∧
  (ret ≠ SUCCESS ∨ procs = [] → c' = c) ∧
  (ret = SUCCESS → procs ≠ [] → utilSamples ≠ [] →
   mark c' gpuIndex = N.max (mark c gpuIndex) (maxSampleTime utilSamples) ∧
   ((mark c gpuIndex ≤ maxSampleTime utilSamples)%N →
    mark c' gpuIndex = maxSampleTime utilSamples) ∧
   ((∀ s, s ∈ utilSamples →
          (mark c gpuIndex ≤ ProcessUtilizationSample.TimeStamp s)%N) →
    mark c' gpuIndex = maxSampleTime utilSamples)).
Proof.
  cbv zeta. rewrite collectProcesses_collector. cbv zeta.
  set (utilSamples := (GetProcessUtilization device (mark c gpuIndex)).1).
  assert (∀ s, s ∈ utilSamples →
               (ProcessUtilizationSample.TimeStamp s
                ≤ maxSampleTime utilSamples)%N) as Hupper.
  { clear. induction utilSamples as [|a r IH]; intros s Hs.
    - by apply elem_of_nil in Hs.
    - unfold maxSampleTime in *. cbn [map foldr].
      apply elem_of_cons in Hs as [->|Hs]; [lia|].
      specialize (IH s Hs). lia. }
  case_bool_decide as Hq.
  - destruct Hq as (Hret & Hprocs & Hsamples).
    rewrite mark_insert, decide_True, maxTimeStamp_max by done.
    split; [lia|]. split.
    { intros g Hg. by rewrite mark_insert, decide_False. }
    split; [done|]. split; [by intros [?|?]|].
    intros _ _ _. split; [done|]. split; [lia|].
    intros Hsince. destruct utilSamples as [|s r]; [done|].
    specialize (Hsince s (list_elem_of_here _ _)).
    specialize (Hupper s (list_elem_of_here _ _)). lia.
  - split; [lia|]. split; [done|]. split; [done|]. split; [done|].
    intros Hret Hprocs Hsamples. by destruct Hq.
Qed.

Lemma high_water_mark_witness :
  (GetComputeRunningProcesses Example.gpu).2 = SUCCESS ∧
  (GetComputeRunningProcesses Example.gpu).1 ≠ [] ∧
  (GetProcessUtilization Example.gpu (mark collector.New 0)).1 ≠ [] ∧
  mark (collector.collectProcesses collector.New 0 Example.gpu).1 0
  = N.max (mark collector.New 0)
      (maxSampleTime
         (GetProcessUtilization Example.gpu (mark collector.New 0)).1).
Proof.
  assert ((GetComputeRunningProcesses Example.gpu).1 ≠ []) as Hprocs by done.
  assert ((GetProcessUtilization Example.gpu (mark collector.New 0)).1 ≠ [])
    as Hsamples by (vm_compute; discriminate).
  split; [reflexivity|]. split; [exact Hprocs|]. split; [exact Hsamples|].
  exact (proj1 (proj2 (proj2 (proj2 (proj2
           (high_water_mark collector.New 0 Example.gpu))))
           eq_refl Hprocs Hsamples)).
Defined.

(** ** The package's tests and the scenarios of the specification *)

(** [TestNewProcessStartsActive]. *)
Example test_new_process_starts_active :
  map ProcessIdleState.IsIdle (Update NewTracker Example.cycle1).2 = [false] ∧
  map ProcessIdleState.IdleDuration (Update NewTracker Example.cycle1).2 = [0].
Proof. split; vm_compute; reflexivity. Qed.

(** [TestProcessBecomesIdleOnSecondPoll]. *)
Example test_process_becomes_idle_on_second_poll :
  map ProcessIdleState.IsIdle (Update Example.after1 Example.cycle2).2 = [true] ∧
  map ProcessIdleState.IdleDuration (Update Example.after1 Example.cycle2).2
  = [0].
Proof. split; vm_compute; reflexivity. Qed.

(** [TestIdleDurationIncreases]. *)
Example test_idle_duration_increases :
  (Update Example.after2 Example.cycle3).2 = [Example.view3].
Proof. vm_compute. reflexivity. Qed.

(** The fourth cycle of the scenario: busy again at 20 s. *)
Example scenario_active_again :
  (Update Example.after3 Example.cycle4).2
  = [{| ProcessIdleState.GPU := 0;
        ProcessIdleState.PID := 1234;
        ProcessIdleState.ProcessName := "python";
        ProcessIdleState.UsedMemory := Example.GiB;
        ProcessIdleState.SmUtil := 50;
        ProcessIdleState.IsIdle := false;
        ProcessIdleState.IdleDuration := 0;
        ProcessIdleState.IdleMemory := 0 |}].
Proof. vm_compute. reflexivity. Qed.

(** [TestStaleProcessCleanup]. *)
Example test_stale_process_cleanup :
  let t1 := run Example.shortTimeout Example.busyThenGone in
  let t2 := (Update t1 (Example.empty (16 * time.Second))).1 in
  (Update (run Example.shortTimeout [Example.makeSnapshot 0 [Example.busy]])
          (Example.empty (5 * time.Second))).2 = [] ∧
  size (states t1) = 1%nat ∧
  size (states t2) = 0%nat.
Proof. repeat split; vm_compute; reflexivity. Qed.

(** [TestMultiGPUProcesses]. *)
Example test_multi_gpu_processes :
  let batch ts := Example.makeSnapshot ts [Example.onGpu0; Example.onGpu1] in
  map (fun v => (ProcessIdleState.GPU v, ProcessIdleState.IsIdle v))
      (Update (Update NewTracker (batch 0)).1 (batch (5 * time.Second))).2
  = [(0, false); (1, true)].
Proof. vm_compute. reflexivity. Qed.

(** Samples older than the stored mark leave the mark where it is: the
    loop over the time stamps starts from the mark. *)
Example stale_samples_keep_mark :
  mark Example.polledAt10 0 = 10%N ∧
  maxSampleTime
    (nvml.GetProcessUtilization Example.laggard (mark Example.polledAt10 0)).1
  = 5%N ∧
  mark (collector.collectProcesses Example.polledAt10 0 Example.laggard).1 0
  = 10%N.
Proof. repeat split; vm_compute; reflexivity. Qed.

(** * Further properties of the tracker *)

(** ** When a view is idle *)

Lemma midCycle_is_Some t snap i k :
  is_Some (tracked (midCycle t snap i) !! k) ↔
  is_Some (states t !! k) ∨ k ∈ keys (take i (collector.Processes snap)).
Proof.
  rewrite midCycle_tracked. split.
  - intros Hsome.
    destruct (decide (k ∈ keys (take i (collector.Processes snap))))
      as [Hin|Hout]; [by right|left].
    by rewrite stateAfter_absent in Hsome.
  - intros [Hsome|Hin].
    + by apply stateAfter_is_Some.
    + by apply stateAfter_present.
Qed.

(** X1. The view of a sample is idle exactly when the sample has
    utilization zero and its key was tracked before the sample: tracked
    when the cycle started, or met earlier in the same batch. *)
Theorem view_idle_iff (t : Tracker) (snap : collector.Snapshot)
    (i : nat) (p : collector.ProcessSample) :
  collector.Processes snap !! i = Some p →
  ∃ v, (Update t snap).2 !! i = Some v ∧
       (ProcessIdleState.IsIdle v = true ↔
        collector.SmUtil p = 0%N ∧
        (is_Some (states t !! keyOf p) ∨
         keyOf p ∈ keys (take i (collector.Processes snap)))).
Proof.
  intros Hp. eexists. split; [by apply Update_view|].
  rewrite <- midCycle_is_Some, emit_IsIdle.
  destruct (tracked (midCycle t snap i) !! keyOf p) as [st|] eqn:Hst.
  - destruct (N.ltb_spec 0 (collector.SmUtil p)) as [Hu|Hu].
    + rewrite classify_active by done. cbn. split; [done|]. intros [? _]. lia.
    + rewrite classify_silent by lia. cbn. split; [|done].
      intros _. split; [lia|by eexists].
  - cbn. split; [done|]. intros [_ [? ?]]. done.
Qed.

Lemma view_idle_iff_witness :
  collector.Processes Example.twice !! 1%nat = Some Example.quiet ∧
  ∃ v, (Update NewTracker Example.twice).2 !! 1%nat = Some v ∧
       (ProcessIdleState.IsIdle v = true ↔
        collector.SmUtil Example.quiet = 0%N ∧
        (is_Some (states NewTracker !! keyOf Example.quiet) ∨
         keyOf Example.quiet
         ∈ keys (take 1 (collector.Processes Example.twice)))).
Proof.
  split; [reflexivity|].
  exact (view_idle_iff NewTracker Example.twice 1 Example.quiet eq_refl).
Defined.

(** ** The keys a tracker holds after a cycle *)

(** X2. After a cycle the tracker holds exactly the keys of the batch and
    the keys it held before that are not past the time-out: nothing else
    is added, and a key of the batch is never swept in its own cycle. *)
Theorem tracked_keys_after (t : Tracker) (snap : collector.Snapshot)
    (k : processKey) :
  is_Some (states (Update t snap).1 !! k) ↔
  k ∈ keys (collector.Processes snap) ∨
  ∃ st, states t !! k = Some st ∧
        ¬ (staleTimeout t
           < time.Sub (collector.Timestamp snap) (LastSeenTime st)).
Proof.
  destruct (decide (k ∈ keys (collector.Processes snap))) as [Hin|Hout].
  - rewrite Update_lookup_seen by done. split; [by left|].
    intros _. by apply stateAfter_present.
  - rewrite Update_lookup_unseen by done.
    destruct (states t !! k) as [st|] eqn:Hst.
    + destruct (Z.ltb_spec (staleTimeout t)
                  (time.Sub (collector.Timestamp snap) (LastSeenTime st))).
      * split; [by intros [? ?]|]. intros [?|(st' & Hst' & Hle)]; [done|].
        injection Hst' as <-. lia.
      * split; [|by eexists]. intros _. right. exists st. split; [done|lia].
    + split; [by intros [? ?]|]. by intros [?|(st' & Hst' & _)].
Qed.

(** ** The order of the times of a state *)

Import More.

Lemma Sub_nonneg t u : u ≤ t → 0 ≤ time.Sub t u.
Proof.
  intros Hle. unfold time.Sub. cbv zeta.
  destruct (Z.ltb_spec time.maxDuration (t - u));
    [unfold time.maxDuration; lia|].
  destruct (Z.ltb_spec (t - u) time.minDuration); lia.
Qed.

Lemma ordered_mono hi hi' st : hi ≤ hi' → ordered hi st → ordered hi' st.
Proof.
  unfold ordered. intros Hle (? & ? & ? & ?).
  split; [done|]. split; [done|]. split; [lia|done].
Qed.

Lemma ordered_classify now p o :
  (∀ st, o = Some st → ordered now st) → ordered now (classify now p o).
Proof.
  intros Ho. destruct o as [st|].
  - destruct (Ho st eq_refl) as (Hfa & Has & Hs & Hidle).
    destruct (N.ltb_spec 0 (collector.SmUtil p)) as [Hu|Hu].
    + rewrite classify_active by done. unfold ordered. cbn.
      repeat split; [lia..|done].
    + rewrite classify_silent by lia. unfold ordered. cbn.
      split; [done|]. split; [lia|]. split; [lia|]. intros _.
      destruct (IsIdle st); [|lia].
      destruct (Hidle eq_refl). lia.
  - unfold ordered. cbn. repeat split; [lia..|done].
Qed.

Lemma ordered_stateAfter now k ps o :
  (∀ st, o = Some st → ordered now st) →
  ∀ st, stateAfter now k ps o = Some st → ordered now st.
Proof.
  intros Ho. induction ps as [|p ps IH] using rev_ind; [done|].
  intros st Hst. rewrite stateAfter_snoc in Hst. case_decide; [|by apply IH].
  injection Hst as <-. by apply ordered_classify.
Qed.

Lemma ordered_Update t snap :
  (∀ k st, states t !! k = Some st → ordered (collector.Timestamp snap) st) →
  ∀ k st, states (Update t snap).1 !! k = Some st →
          ordered (collector.Timestamp snap) st.
Proof.
  intros Hinv k st Hst.
  destruct (decide (k ∈ keys (collector.Processes snap))) as [Hin|Hout].
  - rewrite Update_lookup_seen in Hst by done.
    eapply ordered_stateAfter; [|exact Hst]. intros st0. apply Hinv.
  - rewrite Update_lookup_unseen in Hst by done.
    destruct (states t !! k) as [st0|] eqn:Hst0; [|done].
    case_match; [done|]. injection Hst as <-. by apply (Hinv k).
Qed.

Lemma ordered_run timeout snaps :
  nonDecreasing (timestamps snaps) = true →
  ∀ hi, (∀ ts, ts ∈ timestamps snaps → ts ≤ hi) →
  ∀ k st, states (run (newWith timeout) snaps) !! k = Some st → ordered hi st.
Proof.
  induction snaps as [|snap snaps IH] using rev_ind; intros Hmono hi Hhi k st Hst.
  - cbn in Hst. by rewrite lookup_empty in Hst.
  - unfold timestamps in *. rewrite map_app in *. cbn [map] in *.
    rewrite run_snoc in Hst.
    destruct (nonDecreasing_snoc _ _ Hmono) as [Hmono' Hle].
    apply (ordered_mono (collector.Timestamp snap)).
    + apply Hhi, elem_of_app. right. by apply list_elem_of_singleton.
    + eapply ordered_Update; [|exact Hst]. by apply IH.
Qed.

Lemma timestamps_bounded (ts : list Z) : ∃ hi, ∀ x, x ∈ ts → x ≤ hi.
Proof.
  induction ts as [|a l [hi IH]].
  - exists 0. intros x Hx. by apply elem_of_nil in Hx.
  - exists (Z.max a hi). intros x Hx.
    apply elem_of_cons in Hx as [->|Hx]; [lia|].
    specialize (IH x Hx). lia.
Qed.

(** X3. In a tracker reached from a new one by cycles whose time stamps
    never go back, every tracked state has its times in order: first seen,
    then last active, then last seen; and while it is idle the idle streak
    starts no earlier than the last activity and no later than the last
    sighting. *)
Theorem state_times_ordered (timeout : Z) (snaps : list collector.Snapshot)
    (k : processKey) (st : processState) :
  nonDecreasing (timestamps snaps) = true →
  states (run (newWith timeout) snaps) !! k = Some st →
  FirstSeenTime st ≤ LastActiveTime st ∧
  LastActiveTime st ≤ LastSeenTime st ∧
  (IsIdle st = true →
   LastActiveTime st ≤ IdleSince st ∧ IdleSince st ≤ LastSeenTime st).
Proof.
  intros Hmono Hst.
  destruct (timestamps_bounded (timestamps snaps)) as [hi Hhi].
  destruct (ordered_run timeout snaps Hmono hi Hhi k st Hst)
    as (? & ? & _ & ?).
  done.
Qed.

Lemma state_times_ordered_witness :
  nonDecreasing (timestamps [Example.cycle1; Example.cycle2]) = true ∧
  states (run (newWith (30 * time.Second)) [Example.cycle1; Example.cycle2])
    !! keyOf Example.quiet = Some Example.idleAt5 ∧
  FirstSeenTime Example.idleAt5 ≤ LastActiveTime Example.idleAt5 ∧
  LastActiveTime Example.idleAt5 ≤ LastSeenTime Example.idleAt5 ∧
  (IsIdle Example.idleAt5 = true →
   LastActiveTime Example.idleAt5 ≤ IdleSince Example.idleAt5 ∧
   IdleSince Example.idleAt5 ≤ LastSeenTime Example.idleAt5).
Proof.
  assert (states (run (newWith (30 * time.Second))
                    [Example.cycle1; Example.cycle2])
            !! keyOf Example.quiet = Some Example.idleAt5)
    as Hst by (vm_compute; reflexivity).
  split; [reflexivity|]. split; [exact Hst|].
  exact (state_times_ordered (30 * time.Second)
           [Example.cycle1; Example.cycle2] (keyOf Example.quiet)
           Example.idleAt5 eq_refl Hst).
Defined.

(** X4. Along cycles whose time stamps never go back, no view has a
    negative idle duration. *)
Theorem idle_duration_nonneg (timeout : Z) (snaps : list collector.Snapshot)
    (snap : collector.Snapshot) (v : ProcessIdleState.t) :
  nonDecreasing (timestamps (snaps ++ [snap])) = true →
  v ∈ (Update (run (newWith timeout) snaps) snap).2 →
  0 ≤ ProcessIdleState.IdleDuration v.
Proof.
  intros Hmono Hv. unfold timestamps in Hmono. rewrite map_app in Hmono.
  destruct (nonDecreasing_snoc _ _ Hmono) as [Hmono' Hle].
  apply list_elem_of_lookup in Hv as [i Hi].
  destruct (Update_view_inv _ _ _ _ Hi) as (p & Hp & ->).
  set (now := collector.Timestamp snap) in *.
  set (st' := classify now p
                (tracked (midCycle (run (newWith timeout) snaps) snap i)
                   !! keyOf p)) in *.
  assert (ordered now st') as (_ & _ & Hseen & Hidle).
  { apply ordered_classify. intros st Hst. rewrite midCycle_tracked in Hst.
    eapply ordered_stateAfter; [|exact Hst].
    intros st0 Hst0. by eapply ordered_run. }
  destruct (IsIdle st') eqn:Hi'.
  - destruct (emit_idle now (collector.ProcessNames snap) p st' Hi')
      as (_ & -> & _).
    apply Sub_nonneg. destruct (Hidle eq_refl). lia.
  - by destruct (emit_active now (collector.ProcessNames snap) p st' Hi')
      as (_ & -> & _).
Qed.

Lemma idle_duration_nonneg_witness :
  nonDecreasing
    (timestamps ([Example.cycle1; Example.cycle2] ++ [Example.cycle3]))
  = true ∧
  Example.view3
  ∈ (Update (run (newWith (30 * time.Second))
               [Example.cycle1; Example.cycle2]) Example.cycle3).2 ∧
  0 ≤ ProcessIdleState.IdleDuration Example.view3.
Proof.
  assert (Example.view3
          ∈ (Update (run (newWith (30 * time.Second))
                       [Example.cycle1; Example.cycle2]) Example.cycle3).2)
    as Hv.
  { apply list_elem_of_lookup. exists 0%nat. vm_compute. reflexivity. }
  split; [reflexivity|]. split; [exact Hv|].
  exact (idle_duration_nonneg (30 * time.Second)
           [Example.cycle1; Example.cycle2] Example.cycle3 Example.view3
           eq_refl Hv).
Defined.

(** ** The order of a batch *)

Lemma NoDup_keys_onlyAt ps i p :
  NoDup (keys ps) → ps !! i = Some p → onlyAt ps i p.
Proof.
  intros Hnd Hi. split; [done|]. intros j q Hj Hkey.
  apply (NoDup_lookup (keys ps) j i (keyOf p)); [done|..]; unfold keys.
  - by rewrite list_lookup_fmap, Hj, <- Hkey.
  - by rewrite list_lookup_fmap, Hi.
Qed.

(** With no key twice in the batch, every sample is classified against the
    state the tracker held when the cycle started. *)
Lemma Update_views_NoDup t snap :
  NoDup (keys (collector.Processes snap)) →
  (Update t snap).2 = map (viewOf t snap) (collector.Processes snap).
Proof.
  intros Hnd. apply list_eq. intros i. rewrite list_lookup_fmap.
  destruct (collector.Processes snap !! i) as [p|] eqn:Hi.
  - by destruct (Update_onlyAt t snap i p (NoDup_keys_onlyAt _ _ _ Hnd Hi)).
  - apply lookup_ge_None. rewrite Update_length. by apply lookup_ge_None.
Qed.

(** X5. When no key occurs twice in the batch, the order of the batch only
    decides the order of the views: a cycle run on the same batch in
    another order leaves the same tracker and returns the same views in
    the order of the batch. *)
Theorem batch_order_irrelevant (t : Tracker) (snap : collector.Snapshot)
    (ps' : list collector.ProcessSample) :
  NoDup (keys (collector.Processes snap)) →
  collector.Processes snap ≡ₚ ps' →
  (Update t (reordered snap ps')).1 = (Update t snap).1 ∧
  (Update t snap).2 = map (viewOf t snap) (collector.Processes snap) ∧
  (Update t (reordered snap ps')).2 = map (viewOf t snap) ps' ∧
  (Update t snap).2 ≡ₚ (Update t (reordered snap ps')).2.
Proof.
  intros Hnd Hperm.
  assert (NoDup (keys ps')) as Hnd'.
  { unfold keys in *. by rewrite <- Hperm. }
  assert (∀ k, k ∈ keys (collector.Processes snap) ↔ k ∈ keys ps') as Hkeys.
  { intros k. unfold keys. by rewrite Hperm. }
  pose proof (Update_views_NoDup t snap Hnd) as Hviews.
  pose proof (Update_views_NoDup t (reordered snap ps') Hnd') as Hviews'.
  split; [|split; [exact Hviews|split; [exact Hviews'|]]].
  - assert (states (Update t (reordered snap ps')).1
            = states (Update t snap).1) as Hstates.
    { apply map_eq. intros k.
      destruct (decide (k ∈ keys (collector.Processes snap))) as [Hin|Hout].
      - rewrite (Update_lookup_seen t snap) by done.
        rewrite (Update_lookup_seen t (reordered snap ps'))
          by by apply Hkeys.
        unfold reordered. cbn [collector.Timestamp collector.Processes].
        unfold keys in Hin. apply list_elem_of_fmap in Hin as (p & -> & Hp).
        apply list_elem_of_lookup in Hp as [i Hi].
        assert (p ∈ ps') as Hp' by (rewrite <- Hperm;
                                    by apply list_elem_of_lookup; exists i).
        apply list_elem_of_lookup in Hp' as [j Hj].
        rewrite (stateAfter_onlyAt _ (collector.Processes snap) i p)
          by by apply NoDup_keys_onlyAt.
        by rewrite (stateAfter_onlyAt _ ps' j p)
          by by apply NoDup_keys_onlyAt.
      - rewrite (Update_lookup_unseen t snap) by done.
        rewrite (Update_lookup_unseen t (reordered snap ps')); [done|].
        unfold reordered. cbn [collector.Processes]. by rewrite <- Hkeys. }
    unfold Update. cbn [fst]. f_equal. exact Hstates.
  - rewrite Hviews, Hviews'. by apply fmap_Permutation.
Qed.

Lemma batch_order_irrelevant_witness :
  NoDup (keys [Example.onGpu0; Example.onGpu1]) ∧
  [Example.onGpu0; Example.onGpu1] ≡ₚ [Example.onGpu1; Example.onGpu0] ∧
  (Update Example.after1
     (reordered (Example.makeSnapshot 5 [Example.onGpu0; Example.onGpu1])
        [Example.onGpu1; Example.onGpu0])).1
  = (Update Example.after1
       (Example.makeSnapshot 5 [Example.onGpu0; Example.onGpu1])).1.
Proof.
  assert (NoDup (keys [Example.onGpu0; Example.onGpu1])) as Hnd.
  { apply NoDup_cons. split; [|apply NoDup_singleton].
    intros Hin. apply list_elem_of_singleton in Hin. discriminate Hin. }
  assert ([Example.onGpu0; Example.onGpu1]
          ≡ₚ [Example.onGpu1; Example.onGpu0]) as Hperm by apply perm_swap.
  split; [exact Hnd|]. split; [exact Hperm|].
  exact (proj1 (batch_order_irrelevant Example.after1
                  (Example.makeSnapshot 5 [Example.onGpu0; Example.onGpu1])
                  [Example.onGpu1; Example.onGpu0] Hnd Hperm)).
Defined.

(** ** A streak across missed cycles *)

Lemma run_absent_kept t gap k st :
  states t !! k = Some st →
  (∀ s, s ∈ gap →
        (k ∉ keys (collector.Processes s)) ∧
        ¬ (staleTimeout t
           < time.Sub (collector.Timestamp s) (LastSeenTime st))) →
  states (run t gap) !! k = Some st.
Proof.
  revert t. induction gap as [|s gap IH]; intros t Hst Hgap; [done|].
  rewrite run_cons. destruct (Hgap s (list_elem_of_here _ _)) as [Hout Hle].
  apply IH.
  - rewrite Update_lookup_unseen, Hst by done.
    case_match eqn:Hlt; [|done]. by apply Z.ltb_lt in Hlt.
  - intros s' Hs'. apply Hgap. by right.
Qed.

(** X6. An idle key that is missing from some cycles, none of them past
    the time-out for it, keeps its state through them; when it is next
    seen with utilization zero its view is idle and the idle duration is
    counted from the start of the streak, across the gap. *)
Theorem idle_streak_spans_gap (t : Tracker) (gap : list collector.Snapshot)
    (snap : collector.Snapshot) (i : nat) (p : collector.ProcessSample)
    (st : processState) :
  states t !! keyOf p = Some st →
  IsIdle st = true →
  (∀ s, s ∈ gap →
        (keyOf p ∉ keys (collector.Processes s)) ∧
        ¬ (staleTimeout t
           < time.Sub (collector.Timestamp s) (LastSeenTime st))) →
  firstAt (collector.Processes snap) i p →
  collector.SmUtil p = 0%N →
  states (run t gap) !! keyOf p = Some st ∧
  ∃ v, (Update (run t gap) snap).2 !! i = Some v ∧
       ProcessIdleState.IsIdle v = true ∧
       ProcessIdleState.IdleDuration v
       = time.Sub (collector.Timestamp snap) (IdleSince st) ∧
       ProcessIdleState.IdleMemory v = collector.UsedMemory p.
Proof.
  intros Hst Hidle Hgap Hfirst Hu.
  pose proof (run_absent_kept t gap (keyOf p) st Hst Hgap) as Hkept.
  split; [done|]. pose proof Hfirst as [Hi _].
  eexists. split; [by apply Update_view|].
  rewrite midCycle_tracked, stateAfter_absent by by apply keys_take_firstAt.
  rewrite Hkept, classify_silent by done. cbn. by rewrite Hidle.
Qed.

Lemma idle_streak_spans_gap_witness :
  states Example.after2 !! keyOf Example.quiet = Some Example.idleAt5 ∧
  firstAt (collector.Processes Example.cycle3) 0 Example.quiet ∧
  ∃ v, (Update (run Example.after2 [Example.empty (10 * time.Second)])
          Example.cycle3).2 !! 0%nat = Some v ∧
       ProcessIdleState.IsIdle v = true ∧
       ProcessIdleState.IdleDuration v
       = time.Sub (collector.Timestamp Example.cycle3)
           (IdleSince Example.idleAt5) ∧
       ProcessIdleState.IdleMemory v = collector.UsedMemory Example.quiet.
Proof.
  assert (states Example.after2 !! keyOf Example.quiet
          = Some Example.idleAt5) as Hst by (vm_compute; reflexivity).
  assert (firstAt (collector.Processes Example.cycle3) 0 Example.quiet)
    as Hfirst by (split; [reflexivity|lia]).
  split; [exact Hst|]. split; [exact Hfirst|].
  refine (proj2 (idle_streak_spans_gap Example.after2
                   [Example.empty (10 * time.Second)] Example.cycle3 0
                   Example.quiet Example.idleAt5 Hst eq_refl _ Hfirst eq_refl)).
  intros s Hs. apply list_elem_of_singleton in Hs as ->.
  split; [apply not_elem_of_nil|]. vm_compute. intros Hlt. discriminate Hlt.
Defined.

(** * Further properties of the sample merger *)

(** X7. A process holding memory is reported with a utilization above
    zero exactly when at least one utilization sample of the window, for
    its process id, is above zero. *)
Theorem utilization_positive_iff (c : collector.Collector) (gpuIndex : Z)
    (device : Device) (i : nat) (p : ProcessInfo.t) :
  (GetComputeRunningProcesses device).2 = SUCCESS →
  (GetComputeRunningProcesses device).1 !! i = Some p →
  ∃ s, (collector.collectProcesses c gpuIndex device).2 !! i = Some s ∧
       ((0 < collector.SmUtil s)%N ↔
        ∃ u, u ∈ (GetProcessUtilization device (mark c gpuIndex)).1 ∧
             ProcessUtilizationSample.Pid u = ProcessInfo.Pid p ∧
             (0 < ProcessUtilizationSample.SmUtil u)%N).
Proof.
  intros Hret Hp.
  rewrite (collectProcesses_samples c gpuIndex device
             (GetComputeRunningProcesses device).1)
    by (destruct (GetComputeRunningProcesses device); cbn in *; congruence).
  eexists. split; [by rewrite list_lookup_fmap, Hp|].
  cbn. rewrite buildUtilMap_lookup.
  set (utilSamples := (GetProcessUtilization device (mark c gpuIndex)).1).
  split.
  - intros Hpos.
    destruct (maxUtil_attained (ProcessInfo.Pid p) utilSamples)
      as [(u & Hu & Hpid & Hmax)|[_ Hzero]]; [|lia].
    exists u. split; [done|]. split; [done|lia].
  - intros (u & Hu & Hpid & Hpos).
    pose proof (maxUtil_upper _ _ _ Hu Hpid). lia.
Qed.

Lemma utilization_positive_iff_witness :
  (GetComputeRunningProcesses Example.gpu).2 = SUCCESS ∧
  (GetComputeRunningProcesses Example.gpu).1 !! 0%nat
  = Some (Example.holder 100 (4 * Example.GiB)) ∧
  ∃ s, (collector.collectProcesses collector.New 0 Example.gpu).2 !! 0%nat
       = Some s ∧
       ((0 < collector.SmUtil s)%N ↔
        ∃ u, u ∈ (GetProcessUtilization Example.gpu
                    (mark collector.New 0)).1 ∧
             ProcessUtilizationSample.Pid u
             = ProcessInfo.Pid (Example.holder 100 (4 * Example.GiB)) ∧
             (0 < ProcessUtilizationSample.SmUtil u)%N).
Proof.
  split; [reflexivity|]. split; [reflexivity|].
  exact (utilization_positive_iff collector.New 0 Example.gpu 0
           (Example.holder 100 (4 * Example.GiB)) eq_refl eq_refl).
Defined.

(** X8. A bound on every utilization sample of the window is a bound on
    every utilization reported: percentages stay percentages. *)
Theorem utilization_bounded (c : collector.Collector) (gpuIndex : Z)
    (device : Device) (bound : N) (s : collector.ProcessSample) :
  (∀ u, u ∈ (GetProcessUtilization device (mark c gpuIndex)).1 →
        (ProcessUtilizationSample.SmUtil u ≤ bound)%N) →
  s ∈ (collector.collectProcesses c gpuIndex device).2 →
  (collector.SmUtil s ≤ bound)%N.
Proof.
  intros Hbound Hs.
  destruct (decide ((GetComputeRunningProcesses device).2 = SUCCESS))
    as [Hret|Hret].
  - rewrite (collectProcesses_samples c gpuIndex device
               (GetComputeRunningProcesses device).1) in Hs
      by (destruct (GetComputeRunningProcesses device); cbn in *; congruence).
    apply list_elem_of_fmap in Hs as (p & -> & _).
    cbn. rewrite buildUtilMap_lookup.
    destruct (maxUtil_attained (ProcessInfo.Pid p)
                (GetProcessUtilization device (mark c gpuIndex)).1)
      as [(u & Hu & _ & <-)|[_ ->]]; [by apply Hbound|lia].
  - rewrite collectProcesses_failed in Hs by done. by apply elem_of_nil in Hs.
Qed.

Lemma utilization_bounded_witness :
  (∀ u, u ∈ (GetProcessUtilization Example.gpu (mark collector.New 0)).1 →
        (ProcessUtilizationSample.SmUtil u ≤ 100)%N) ∧
  Example.proc 0 100 (4 * Example.GiB) 70
  ∈ (collector.collectProcesses collector.New 0 Example.gpu).2 ∧
  (collector.SmUtil (Example.proc 0 100 (4 * Example.GiB) 70) ≤ 100)%N.
Proof.
  assert (∀ u, u ∈ (GetProcessUtilization Example.gpu
                      (mark collector.New 0)).1 →
               (ProcessUtilizationSample.SmUtil u ≤ 100)%N) as Hbound.
  { intros u Hu.
    assert (u ∈ [Example.util 100 1000 30; Example.util 300 1500 90;
                 Example.util 100 2500 70]) as Hu' by exact Hu.
    repeat (apply elem_of_cons in Hu' as [->|Hu']; [cbn; lia|]).
    by apply elem_of_nil in Hu'. }
  assert (Example.proc 0 100 (4 * Example.GiB) 70
          ∈ (collector.collectProcesses collector.New 0 Example.gpu).2)
    as Hs.
  { apply list_elem_of_lookup. exists 0%nat. vm_compute. reflexivity. }
  split; [exact Hbound|]. split; [exact Hs|].
  exact (utilization_bounded collector.New 0 Example.gpu 100 _ Hbound Hs).
Defined.

(** X9. After a call that made the utilization query, the stored mark of
    the device is no earlier than any sample the query returned: the next
    query asks for samples since a time stamp that covers everything
    already read. *)
Theorem mark_covers_samples (c : collector.Collector) (gpuIndex : Z)
    (device : Device) (u : ProcessUtilizationSample.t) :
  (GetComputeRunningProcesses device).2 = SUCCESS →
  (GetComputeRunningProcesses device).1 ≠ [] →
  u ∈ (GetProcessUtilization device (mark c gpuIndex)).1 →
  (ProcessUtilizationSample.TimeStamp u
   ≤ mark (collector.collectProcesses c gpuIndex device).1 gpuIndex)%N.
Proof.
  intros Hret Hprocs Hu. rewrite collectProcesses_collector. cbv zeta.
  set (utilSamples := (GetProcessUtilization device (mark c gpuIndex)).1) in *.
  rewrite bool_decide_eq_true_2.
  - rewrite mark_insert, decide_True, maxTimeStamp_max by done.
    assert (ProcessUtilizationSample.TimeStamp u
            ≤ maxSampleTime utilSamples)%N; [|lia].
    clear -Hu. induction utilSamples as [|a r IH].
    + by apply elem_of_nil in Hu.
    + unfold maxSampleTime in *. cbn [map foldr].
      apply elem_of_cons in Hu as [->|Hu]; [lia|]. specialize (IH Hu). lia.
  - split; [done|]. split; [done|]. intros Hnil. rewrite Hnil in Hu.
    by apply elem_of_nil in Hu.
Qed.

Lemma mark_covers_samples_witness :
  (GetComputeRunningProcesses Example.gpu).2 = SUCCESS ∧
  (GetComputeRunningProcesses Example.gpu).1 ≠ [] ∧
  Example.util 100 2500 70
  ∈ (GetProcessUtilization Example.gpu (mark collector.New 0)).1 ∧
  (ProcessUtilizationSample.TimeStamp (Example.util 100 2500 70)
   ≤ mark (collector.collectProcesses collector.New 0 Example.gpu).1 0)%N.
Proof.
  assert ((GetComputeRunningProcesses Example.gpu).1 ≠ []) as Hprocs by done.
  assert (Example.util 100 2500 70
          ∈ (GetProcessUtilization Example.gpu (mark collector.New 0)).1)
    as Hu.
  { apply list_elem_of_lookup. exists 2%nat. vm_compute. reflexivity. }
  split; [reflexivity|]. split; [exact Hprocs|]. split; [exact Hu|].
  exact (mark_covers_samples collector.New 0 Example.gpu
           (Example.util 100 2500 70) eq_refl Hprocs Hu).
Defined.

(** * The rest of package collector *)

Import collection Cycle.

(** ** [readProcessName] *)

Lemma length_substring_0 n s :
  String.length (String.substring 0 n s) = Nat.min n (String.length s).
Proof.
  revert s. induction n as [|n IH]; intros [|a s]; cbn; [done..|].
  by rewrite IH.
Qed.

Lemma readProcessName_nonempty `{Strings} comm pid :
  readProcessName comm pid ≠ EmptyString.
Proof.
  unfold readProcessName. destruct (comm pid) as [data|]; [|done].
  cbv zeta. case_bool_decide as Hempty; done.
Qed.

(** X10. Whatever the file of the process holds, and whatever the two
    library functions do to it, the name [readProcessName] returns is never
    empty and never longer than 64 bytes; when the file cannot be read the
    name is "unknown". *)
Theorem process_name_bounds `{Strings} (comm : N → option string) (pid : N) :
  readProcessName comm pid ≠ EmptyString ∧
  (String.length (readProcessName comm pid) ≤ 64)%nat ∧
  (comm pid = None → readProcessName comm pid = "unknown"%string).
Proof.
  unfold readProcessName. destruct (comm pid) as [data|].
  - cbv zeta. set (name := Map stripControl (TrimSpace data)).
    destruct (Nat.ltb_spec 64 (String.length name)) as [Hlong|Hshort].
    + assert (String.length (String.substring 0 64 name) = 64%nat) as Hlen
        by (rewrite length_substring_0; lia).
      case_bool_decide as Hempty.
      * by rewrite Hempty in Hlen.
      * split; [done|]. split; [lia|done].
    + case_bool_decide as Hempty; [by split; [|split; [cbn; lia|]]|].
      split; [done|]. split; [lia|done].
  - split; [done|]. split; [cbn; lia|done].
Qed.

(** ** The loop of [Collect] over the devices *)

Lemma collectProcesses_mark_other c i d g :
  g ≠ i → mark (collector.collectProcesses c i d).1 g = mark c g.
Proof.
  intros Hg. rewrite collectProcesses_collector. cbv zeta.
  case_bool_decide; [|done]. by rewrite mark_insert, decide_False.
Qed.

Lemma collectProcesses_mark_le c i d :
  (mark c i ≤ mark (collector.collectProcesses c i d).1 i)%N.
Proof.
  rewrite collectProcesses_collector. cbv zeta.
  case_bool_decide; [|lia].
  rewrite mark_insert, decide_True, maxTimeStamp_max by done. lia.
Qed.

(** [collectProcesses] reads of the collector only the mark of its own
    device. *)
Lemma collectProcesses_reads_mark c1 c2 i d :
  mark c1 i = mark c2 i →
  (collector.collectProcesses c1 i d).2 = (collector.collectProcesses c2 i d).2 ∧
  mark (collector.collectProcesses c1 i d).1 i
  = mark (collector.collectProcesses c2 i d).1 i.
Proof.
  intros Hmark. split.
  - unfold collector.collectProcesses. fold (mark c1 i) (mark c2 i).
    rewrite Hmark.
    destruct (GetComputeRunningProcesses d) as [procs ret].
    destruct (negb _); [done|]. destruct (_ =? _)%nat; [done|].
    by destruct (GetProcessUtilization d (mark c2 i)).
  - rewrite !collectProcesses_collector. cbv zeta. rewrite Hmark.
    case_bool_decide; [|done]. by rewrite !mark_insert, !decide_True.
Qed.

Lemma collectProcesses_GPU c i d s :
  s ∈ (collector.collectProcesses c i d).2 → collector.GPU s = i.
Proof.
  intros Hs.
  destruct (decide ((GetComputeRunningProcesses d).2 = SUCCESS)) as [Hret|Hret].
  - rewrite (collectProcesses_samples c i d (GetComputeRunningProcesses d).1)
      in Hs by (destruct (GetComputeRunningProcesses d); cbn in *; congruence).
    by apply list_elem_of_fmap in Hs as (p & -> & _).
  - rewrite collectProcesses_failed in Hs by done. by apply elem_of_nil in Hs.
Qed.

Lemma collectProcesses_PIDs c i d :
  (GetComputeRunningProcesses d).2 = SUCCESS →
  map collector.PID (collector.collectProcesses c i d).2
  = map ProcessInfo.Pid (GetComputeRunningProcesses d).1.
Proof.
  intros Hret.
  rewrite (collectProcesses_samples c i d (GetComputeRunningProcesses d).1)
    by (destruct (GetComputeRunningProcesses d); cbn in *; congruence).
  rewrite <- list_fmap_compose. by apply list_fmap_ext.
Qed.

Section device_loop.

Context {F : Type} `{!Float64 F} (drv : Driver).

Lemma visitDevice_good (r : round F) i :
  good drv i →
  visitDevice drv r i
  = {| coll := (collector.collectProcesses (coll r) i (queriesOf drv i)).1;
       devices := devices r
                  ++ [collectDevice i (DeviceGetHandleByIndex drv i).1];
       processes := processes r ++ samplesOf (coll r) drv i |}.
Proof.
  unfold good, visitDevice, samplesOf, queriesOf. intros Hgood.
  destruct (DeviceGetHandleByIndex drv i) as [device ret]. cbn in *.
  rewrite bool_decide_eq_true_2 by done. cbn [negb].
  by destruct (collector.collectProcesses _ _ _).
Qed.

Lemma visitDevice_bad (r : round F) i :
  ¬ good drv i → visitDevice drv r i = r.
Proof.
  unfold good, visitDevice. intros Hbad.
  destruct (DeviceGetHandleByIndex drv i) as [device ret]. cbn in *.
  by rewrite bool_decide_eq_false_2.
Qed.

(** A turn of the loop touches the mark of its own device only. *)
Lemma visitDevice_mark_other (r : round F) i g :
  g ≠ i → mark (coll (visitDevice drv r i)) g = mark (coll r) g.
Proof.
  intros Hg. destruct (decide (good drv i)) as [Hgood|Hbad].
  - rewrite visitDevice_good by done. cbn.
    by apply collectProcesses_mark_other.
  - by rewrite visitDevice_bad.
Qed.

Lemma loop_mark_other (r : round F) idxs g :
  g ∉ idxs → mark (coll (foldl (visitDevice drv) r idxs)) g = mark (coll r) g.
Proof.
  induction idxs as [|i idxs IH] using rev_ind; intros Hg; [done|].
  rewrite foldl_app. cbn [foldl].
  apply not_elem_of_app in Hg as [Hg Hi].
  rewrite visitDevice_mark_other; [by apply IH|].
  intros ->. apply Hi. by apply list_elem_of_singleton.
Qed.

Lemma loop_devices (r : round F) idxs :
  devices (foldl (visitDevice drv) r idxs)
  = devices r
    ++ map (fun i => collectDevice i (DeviceGetHandleByIndex drv i).1)
           (filter (good drv) idxs).
Proof.
  induction idxs as [|i idxs IH] using rev_ind.
  - cbn. by rewrite app_nil_r.
  - rewrite foldl_app, filter_app. cbn [foldl].
    destruct (decide (good drv i)) as [Hgood|Hbad].
    + rewrite visitDevice_good by done. cbn [devices].
      rewrite IH, (filter_cons_True _ _ _ Hgood), filter_nil, map_app.
      by rewrite <- app_assoc.
    + rewrite visitDevice_bad by done.
      by rewrite IH, (filter_cons_False _ _ _ Hbad), filter_nil, app_nil_r.
Qed.

(** Every device is merged against the mark it had when the loop started:
    the turns of the other devices do not touch it. *)
Lemma loop_processes (r : round F) idxs :
  NoDup idxs →
  processes (foldl (visitDevice drv) r idxs)
  = processes r
    ++ mjoin (map (samplesOf (coll r) drv) (filter (good drv) idxs)).
Proof.
  induction idxs as [|i idxs IH] using rev_ind; intros Hnd.
  - cbn. by rewrite app_nil_r.
  - apply NoDup_app in Hnd as (Hnd & Hi & _).
    rewrite foldl_app, filter_app. cbn [foldl].
    destruct (decide (good drv i)) as [Hgood|Hbad].
    + rewrite visitDevice_good by done. cbn [processes].
      rewrite IH, (filter_cons_True _ _ _ Hgood), filter_nil by done.
      rewrite map_app, join_app. cbn. rewrite app_nil_r, <- app_assoc.
      f_equal. f_equal. unfold samplesOf.
      apply collectProcesses_reads_mark, loop_mark_other.
      intros Hin. apply (Hi i Hin). by apply list_elem_of_singleton.
    + rewrite visitDevice_bad by done.
      by rewrite IH, (filter_cons_False _ _ _ Hbad), filter_nil, app_nil_r.
Qed.

Lemma loop_mark_own (r : round F) idxs g :
  NoDup idxs → g ∈ idxs → good drv g →
  mark (coll (foldl (visitDevice drv) r idxs)) g
  = mark (collector.collectProcesses (coll r) g (queriesOf drv g)).1 g.
Proof.
  induction idxs as [|i idxs IH] using rev_ind; intros Hnd Hg Hgood.
  - by apply elem_of_nil in Hg.
  - apply NoDup_app in Hnd as (Hnd & Hi & _).
    rewrite foldl_app. cbn [foldl].
    apply elem_of_app in Hg as [Hg|Hg].
    + rewrite visitDevice_mark_other; [by apply IH|].
      intros ->. apply (Hi i Hg). by apply list_elem_of_singleton.
    + apply list_elem_of_singleton in Hg as ->.
      rewrite visitDevice_good by done. cbn [coll].
      apply collectProcesses_reads_mark, loop_mark_other.
      intros Hin. apply (Hi i Hin). by apply list_elem_of_singleton.
Qed.

Lemma loop_mark_le (r : round F) idxs g :
  (mark (coll r) g ≤ mark (coll (foldl (visitDevice drv) r idxs)) g)%N.
Proof.
  induction idxs as [|i idxs IH] using rev_ind; [done|].
  rewrite foldl_app. cbn [foldl].
  destruct (decide (g = i)) as [->|Hne].
  - destruct (decide (good drv i)) as [Hgood|Hbad].
    + rewrite visitDevice_good by done. cbn [coll].
      etrans; [exact IH|]. apply collectProcesses_mark_le.
    + by rewrite visitDevice_bad.
  - by rewrite visitDevice_mark_other.
Qed.

Lemma loop_mark_bad (r : round F) idxs g :
  ¬ good drv g →
  mark (coll (foldl (visitDevice drv) r idxs)) g = mark (coll r) g.
Proof.
  intros Hbad. induction idxs as [|i idxs IH] using rev_ind; [done|].
  rewrite foldl_app. cbn [foldl].
  destruct (decide (g = i)) as [<-|Hne].
  - by rewrite visitDevice_bad.
  - by rewrite visitDevice_mark_other.
Qed.

End device_loop.

(** ** A whole [Collect] *)

Section collect.

Context {F : Type} `{!Float64 F} `{!Strings}.
Context (c : collector.Collector) (drv : Driver) (now : Z)
        (comm : N → option string).

Lemma Collect_failed :
  (DeviceGetCount drv).2 ≠ SUCCESS →
  Collect (F:=F) c drv now comm = (c, inl (DeviceGetCount drv).2).
Proof.
  intros Hret. unfold Collect. destruct (DeviceGetCount drv) as [count ret].
  cbn in *. by rewrite bool_decide_eq_false_2.
Qed.

Lemma Collect_ok :
  (DeviceGetCount drv).2 = SUCCESS →
  let r := foldl (visitDevice (F:=F) drv)
             {| coll := c; devices := []; processes := [] |}
             (seqZ 0 (DeviceGetCount drv).1) in
  Collect c drv now comm
  = (coll r,
     inr {| Devices := devices r;
            Snap := {| collector.Timestamp := now;
                       collector.Processes := processes r;
                       collector.ProcessNames :=
                         readNames comm (processes r) |} |}).
Proof.
  intros Hret. unfold Collect. destruct (DeviceGetCount drv) as [count ret].
  cbn in *. by rewrite bool_decide_eq_true_2.
Qed.

(** What a successful [Collect] returns, in terms of the devices
    reported. *)
Lemma Collect_inr c' (col : Collected F) :
  Collect c drv now comm = (c', inr col) →
  (DeviceGetCount drv).2 = SUCCESS ∧
  Devices col
  = map (fun i => collectDevice i (DeviceGetHandleByIndex drv i).1)
        (reported drv) ∧
  collector.Timestamp (Snap col) = now ∧
  collector.Processes (Snap col)
  = mjoin (map (samplesOf c drv) (reported drv)) ∧
  collector.ProcessNames (Snap col)
  = readNames comm (collector.Processes (Snap col)) ∧
  c' = coll (foldl (visitDevice (F:=F) drv)
               {| coll := c; devices := []; processes := [] |}
               (seqZ 0 (DeviceGetCount drv).1)).
Proof.
  intros Hcol.
  destruct (decide ((DeviceGetCount drv).2 = SUCCESS)) as [Hret|Hret];
    [|by rewrite Collect_failed in Hcol].
  split; [done|]. rewrite (Collect_ok Hret) in Hcol. cbv zeta in Hcol.
  injection Hcol as <- <-. cbn.
  rewrite loop_devices, loop_processes by apply NoDup_seqZ. by cbn.
Qed.

End collect.

Lemma reported_range drv i :
  i ∈ reported drv ↔ 0 ≤ i < (DeviceGetCount drv).1 ∧ good drv i.
Proof.
  unfold reported. rewrite list_elem_of_filter, elem_of_seqZ. intuition lia.
Qed.

Lemma NoDup_reported drv : NoDup (reported drv).
Proof. apply NoDup_filter, NoDup_seqZ. Qed.

Lemma filter_all {A} (P : A → Prop) `{!∀ x, Decision (P x)} (l : list A) :
  (∀ x, x ∈ l → P x) → filter P l = l.
Proof.
  induction l as [|x l IH]; intros Hall; [done|].
  rewrite filter_cons_True by (apply Hall; by left).
  f_equal. apply IH. intros y Hy. apply Hall. by right.
Qed.

Lemma filter_none {A} (P : A → Prop) `{!∀ x, Decision (P x)} (l : list A) :
  (∀ x, x ∈ l → ¬ P x) → filter P l = [].
Proof.
  induction l as [|x l IH]; intros Hall; [done|].
  rewrite filter_cons_False by (apply Hall; by left).
  apply IH. intros y Hy. apply Hall. by right.
Qed.

(** The samples of one device among those of all. *)
Lemma filter_GPU_join (f : Z → list collector.ProcessSample) idxs i :
  NoDup idxs →
  (∀ j s, s ∈ f j → collector.GPU s = j) →
  filter (fun s => collector.GPU s = i) (mjoin (map f idxs))
  = if decide (i ∈ idxs) then f i else [].
Proof.
  intros Hnd Hgpu. induction idxs as [|j idxs IH].
  - by rewrite decide_False by apply not_elem_of_nil.
  - apply NoDup_cons in Hnd as [Hj Hnd].
    change (mjoin (map f (j :: idxs))) with (f j ++ mjoin (map f idxs)).
    rewrite filter_app, (IH Hnd).
    destruct (decide (i = j)) as [->|Hne].
    + rewrite (decide_True (P:=j ∈ j :: idxs)) by by left.
      rewrite (decide_False (P:=j ∈ idxs)), app_nil_r by done.
      apply filter_all. intros s Hs. by apply Hgpu.
    + rewrite filter_none.
      * cbn. destruct (decide (i ∈ idxs)) as [Hin|Hout].
        -- by rewrite decide_True by by right.
        -- rewrite decide_False; [done|].
           intros Hin. by apply elem_of_cons in Hin as [?|?].
      * intros s Hs Hgi. apply Hne. by rewrite <- Hgi, (Hgpu j s Hs).
Qed.

Lemma samplesOf_GPU c drv j s : s ∈ samplesOf c drv j → collector.GPU s = j.
Proof. apply collectProcesses_GPU. Qed.

(** ** The devices and the processes of a snapshot *)

Section collected.

Context {F : Type} `{!Float64 F} `{!Strings}.
Context (c c' : collector.Collector) (drv : Driver) (now : Z)
        (comm : N → option string) (col : Collected F).

(** X11. A successful [Collect] reports one device for every index below
    the count whose handle was obtained, in increasing order of index, and
    none for the others: a handle that is not obtained drops its device
    from the cycle without failing it.  [Collect] fails only when the
    count itself is not obtained, and then leaves the collector as it
    was. *)
Theorem collected_devices :
  (Collect c drv now comm = (c', inr col) →
   (DeviceGetCount drv).2 = SUCCESS ∧
   map Index (Devices col) = reported drv ∧
   ∀ d, d ∈ Devices col →
        d = collectDevice (Index d)
              (DeviceGetHandleByIndex drv (Index d)).1) ∧
  ((DeviceGetCount drv).2 ≠ SUCCESS →
   Collect (F:=F) c drv now comm = (c, inl (DeviceGetCount drv).2)).
Proof.
  split; [|apply Collect_failed].
  intros Hcol. destruct (Collect_inr _ _ _ _ _ _ Hcol) as (Hret & -> & _).
  split; [done|]. split.
  - rewrite <- list_fmap_compose. by rewrite list_fmap_id.
  - intros d Hd. by apply list_elem_of_fmap in Hd as (i & -> & _).
Qed.

(** X12. In the snapshot of a successful [Collect] the samples come
    device by device in increasing order of index, and the samples of
    device [i] are what [collectProcesses] returns for it from the
    collector as it was before the cycle: the devices are merged
    independently, each against its own mark. *)
Theorem collected_processes_by_device :
  Collect c drv now comm = (c', inr col) →
  collector.Processes (Snap col)
  = mjoin (map (samplesOf c drv) (reported drv)) ∧
  ∀ i, filter (fun s => collector.GPU s = i) (collector.Processes (Snap col))
       = if decide (i ∈ reported drv) then samplesOf c drv i else [].
Proof.
  intros Hcol.
  destruct (Collect_inr _ _ _ _ _ _ Hcol) as (_ & _ & _ & Hps & _).
  split; [done|]. intros i. rewrite Hps.
  apply filter_GPU_join; [apply NoDup_reported|apply samplesOf_GPU].
Qed.

(** X13. Every sample of the snapshot is on a device the snapshot
    reports, and its device index is below the count. *)
Theorem collected_process_on_reported_device (s : collector.ProcessSample) :
  Collect c drv now comm = (c', inr col) →
  s ∈ collector.Processes (Snap col) →
  collector.GPU s ∈ map Index (Devices col) ∧
  0 ≤ collector.GPU s < (DeviceGetCount drv).1.
Proof.
  intros Hcol Hs.
  destruct (Collect_inr _ _ _ _ _ _ Hcol) as (_ & Hdev & _ & Hps & _).
  rewrite Hps in Hs. apply list_elem_of_join in Hs as (l & Hs & Hl).
  apply list_elem_of_fmap in Hl as (i & -> & Hi).
  rewrite (samplesOf_GPU _ _ _ _ Hs).
  split; [|by apply reported_range in Hi as [? _]].
  rewrite Hdev, <- list_fmap_compose. cbn. by rewrite list_fmap_id.
Qed.

End collected.

(** ** The names of a snapshot *)

Lemma readNames_lookup `{!Strings} comm procs pid :
  readNames comm procs !! pid
  = if decide (pid ∈ map collector.PID procs)
    then Some (readProcessName comm pid) else None.
Proof.
  unfold readNames.
  assert (∀ names : gmap N string,
            foldl (fun (names : gmap N string) p =>
                     match names !! collector.PID p with
                     | Some _ => names
                     | None =>
                         <[collector.PID p :=
                             readProcessName comm (collector.PID p)]> names
                     end) names procs !! pid
            = match names !! pid with
              | Some name => Some name
              | None => if decide (pid ∈ map collector.PID procs)
                        then Some (readProcessName comm pid) else None
              end) as Hgen.
  { induction procs as [|p procs IH]; intros names.
    - cbn. rewrite decide_False by apply not_elem_of_nil. by case_match.
    - cbn [foldl map]. rewrite IH.
      destruct (decide (collector.PID p = pid)) as [<-|Hne].
      + rewrite (decide_True (P:=_ ∈ _ :: _)) by by left.
        destruct (names !! collector.PID p) as [name|] eqn:Hname.
        * by rewrite Hname.
        * by rewrite lookup_insert_eq.
      + assert ((match names !! collector.PID p with
                 | Some _ => names
                 | None => <[collector.PID p :=
                               readProcessName comm (collector.PID p)]> names
                 end) !! pid = names !! pid) as ->.
        { destruct (names !! collector.PID p); [done|].
          by rewrite lookup_insert_ne. }
        destruct (names !! pid); [done|].
        destruct (decide (pid ∈ map collector.PID procs)) as [Hin|Hout].
        * by rewrite decide_True by by right.
        * rewrite decide_False; [done|].
          intros Hin. apply elem_of_cons in Hin as [?|?]; by subst. }
  by rewrite Hgen, lookup_empty.
Qed.

Section collected_more.

Context {F : Type} `{!Float64 F} `{!Strings}.
Context (c c' : collector.Collector) (drv : Driver) (now : Z)
        (comm : N → option string) (col : Collected F).

(** X14. The snapshot of a successful [Collect] names exactly the process
    ids of its samples: each of them with what [readProcessName] gives for
    it, read once, and no other process id. *)
Theorem collected_names (pid : N) :
  Collect c drv now comm = (c', inr col) →
  (pid ∈ map collector.PID (collector.Processes (Snap col)) →
   collector.ProcessNames (Snap col) !! pid
   = Some (readProcessName comm pid)) ∧
  (pid ∉ map collector.PID (collector.Processes (Snap col)) →
   collector.ProcessNames (Snap col) !! pid = None).
Proof.
  intros Hcol.
  destruct (Collect_inr _ _ _ _ _ _ Hcol) as (_ & _ & _ & _ & -> & _).
  rewrite readNames_lookup. split; intros Hpid.
  - by rewrite decide_True.
  - by rewrite decide_False.
Qed.

(** X15. Across a whole [Collect] no stored mark goes down.  The mark of
    a device that is not reported is left as it was, and the mark of a
    reported device is what its own [collectProcesses] made of the mark it
    had before the cycle. *)
Theorem collected_marks (r : Return + Collected F) (g : Z) :
  Collect c drv now comm = (c', r) →
  (mark c g ≤ mark c' g)%N ∧
  (g ∉ reported drv → mark c' g = mark c g) ∧
  (g ∈ reported drv → (∃ col', r = inr col') →
   mark c' g
   = mark (collector.collectProcesses c g (queriesOf drv g)).1 g) ∧
  ((∃ ret, r = inl ret) → c' = c).
Proof.
  intros Hcol.
  destruct (decide ((DeviceGetCount drv).2 = SUCCESS)) as [Hret|Hret].
  - rewrite (Collect_ok _ _ _ _ Hret) in Hcol. cbv zeta in Hcol.
    injection Hcol as <- <-.
    pose (r0 := {| coll := c; devices := @nil (DeviceInfo F);
                   processes := [] |}).
    split; [apply (loop_mark_le drv r0)|]. split.
    + intros Hg. unfold reported in Hg. rewrite list_elem_of_filter in Hg.
      destruct (decide (g ∈ seqZ 0 (DeviceGetCount drv).1)) as [Hin|Hout];
        [|by apply (loop_mark_other drv r0)].
      apply (loop_mark_bad drv r0). tauto.
    + split; [|by intros [ret ?]].
      intros Hg _. apply reported_range in Hg as [Hrange Hgood].
      apply (loop_mark_own drv r0); [apply NoDup_seqZ| |done].
      apply elem_of_seqZ. lia.
  - rewrite Collect_failed in Hcol by done. injection Hcol as <- <-.
    split; [lia|]. split; [done|]. split; [|done]. by intros _ [col' ?].
Qed.

(** X16. When every reported device lists each process id once, no key
    occurs twice in the snapshot; a cycle of the tracker on it then
    classifies every sample against the state the tracker held when the
    cycle started. *)
Theorem collected_keys_distinct (t : Tracker) :
  Collect c drv now comm = (c', inr col) →
  (∀ i, i ∈ reported drv → NoDup (holdersOf drv i)) →
  NoDup (keys (collector.Processes (Snap col))) ∧
  (Update t (Snap col)).2
  = map (viewOf t (Snap col)) (collector.Processes (Snap col)).
Proof.
  intros Hcol Hholders.
  destruct (Collect_inr _ _ _ _ _ _ Hcol) as (_ & _ & _ & Hps & _).
  assert (NoDup (keys (collector.Processes (Snap col)))) as Hnd.
  { rewrite Hps. pose proof (NoDup_reported drv) as Hrep.
    revert Hholders Hrep. generalize (reported drv). intros idxs Hholders Hrep.
    induction idxs as [|i idxs IH]; [by apply NoDup_nil|].
    apply NoDup_cons in Hrep as [Hi Hrep].
    change (mjoin (map (samplesOf c drv) (i :: idxs)))
      with (samplesOf c drv i ++ mjoin (map (samplesOf c drv) idxs)).
    unfold keys in *. rewrite map_app. apply NoDup_app. split; [|split].
    - assert (NoDup (holdersOf drv i)) as Hnd by (apply Hholders; by left).
      unfold samplesOf, holdersOf in *.
      destruct (decide ((GetComputeRunningProcesses (queriesOf drv i)).2
                        = SUCCESS)) as [Hret|Hret].
      + apply (NoDup_fmap_1 PID). rewrite <- list_fmap_compose.
        rewrite <- (collectProcesses_PIDs c i _ Hret) in Hnd.
        by erewrite list_fmap_ext; [exact Hnd|..].
      + rewrite collectProcesses_failed by done. apply NoDup_nil_2.
    - intros k Hk Hk'.
      apply list_elem_of_fmap in Hk as (s & -> & Hs).
      apply list_elem_of_fmap in Hk' as (s' & Hkey & Hs').
      apply list_elem_of_join in Hs' as (l & Hs' & Hl).
      apply list_elem_of_fmap in Hl as (j & -> & Hj).
      apply keyOf_inj_GPU in Hkey.
      rewrite (samplesOf_GPU _ _ _ _ Hs), (samplesOf_GPU _ _ _ _ Hs') in Hkey.
      by subst.
    - apply IH; [|done]. intros j Hj. apply Hholders. by right. }
  split; [done|]. by apply Update_views_NoDup.
Qed.

(** X17. A cycle of the tracker on the snapshot of a successful [Collect]
    gives every view the name [readProcessName] reads for its process id:
    no view is left with the empty name of a missing map entry. *)
Theorem collected_view_names (t : Tracker) (v : ProcessIdleState.t) :
  Collect c drv now comm = (c', inr col) →
  v ∈ (Update t (Snap col)).2 →
  ProcessIdleState.ProcessName v
  = readProcessName comm (ProcessIdleState.PID v) ∧
  ProcessIdleState.ProcessName v ≠ EmptyString.
Proof.
  intros Hcol Hv. apply list_elem_of_lookup in Hv as [i Hi].
  destruct (Update_view_inv _ _ _ _ Hi) as (p & Hp & ->). cbn.
  destruct (Collect_inr _ _ _ _ _ _ Hcol) as (_ & _ & _ & _ & -> & _).
  rewrite readNames_lookup, decide_True.
  - split; [done|]. apply readProcessName_nonempty.
  - apply list_elem_of_fmap. exists p. split; [done|].
    apply list_elem_of_lookup. by exists i.
Qed.

End collected_more.

(** ** The cycle of the example driver *)

Lemma collected_devices_witness :
  @Collect Z Rig.intFloat Rig.asciiStrings collector.New Rig.driver 0 Rig.comm
  = (Rig.marked, inr Rig.col) ∧
  map Index (Devices Rig.col) = reported Rig.driver.
Proof.
  assert (@Collect Z Rig.intFloat Rig.asciiStrings collector.New Rig.driver 0
            Rig.comm = (Rig.marked, inr Rig.col)) as Hcol
    by (vm_compute; reflexivity).
  split; [exact Hcol|].
  exact (proj1 (proj2 (proj1
           (@collected_devices Z Rig.intFloat Rig.asciiStrings collector.New
              Rig.marked Rig.driver 0 Rig.comm Rig.col) Hcol))).
Defined.

Lemma collected_processes_by_device_witness :
  @Collect Z Rig.intFloat Rig.asciiStrings collector.New Rig.driver 0 Rig.comm
  = (Rig.marked, inr Rig.col) ∧
  collector.Processes (Snap Rig.col)
  = mjoin (map (samplesOf collector.New Rig.driver) (reported Rig.driver)).
Proof.
  assert (@Collect Z Rig.intFloat Rig.asciiStrings collector.New Rig.driver 0
            Rig.comm = (Rig.marked, inr Rig.col)) as Hcol
    by (vm_compute; reflexivity).
  split; [exact Hcol|].
  exact (proj1 (@collected_processes_by_device Z Rig.intFloat
                  Rig.asciiStrings collector.New Rig.marked Rig.driver 0
                  Rig.comm Rig.col Hcol)).
Defined.

Lemma collected_process_on_reported_device_witness :
  @Collect Z Rig.intFloat Rig.asciiStrings collector.New Rig.driver 0 Rig.comm
  = (Rig.marked, inr Rig.col) ∧
  Example.proc 0 200 (8 * Example.GiB) 0
  ∈ collector.Processes (Snap Rig.col) ∧
  collector.GPU (Example.proc 0 200 (8 * Example.GiB) 0)
  ∈ map Index (Devices Rig.col).
Proof.
  assert (@Collect Z Rig.intFloat Rig.asciiStrings collector.New Rig.driver 0
            Rig.comm = (Rig.marked, inr Rig.col)) as Hcol
    by (vm_compute; reflexivity).
  assert (Example.proc 0 200 (8 * Example.GiB) 0
          ∈ collector.Processes (Snap Rig.col)) as Hs
    by (right; left).
  split; [exact Hcol|]. split; [exact Hs|].
  exact (proj1 (@collected_process_on_reported_device Z Rig.intFloat
                  Rig.asciiStrings collector.New Rig.marked Rig.driver 0
                  Rig.comm Rig.col _ Hcol Hs)).
Defined.

Lemma collected_names_witness :
  @Collect Z Rig.intFloat Rig.asciiStrings collector.New Rig.driver 0 Rig.comm
  = (Rig.marked, inr Rig.col) ∧
  100%N ∈ map collector.PID (collector.Processes (Snap Rig.col)) ∧
  collector.ProcessNames (Snap Rig.col) !! 100%N
  = Some (@readProcessName Rig.asciiStrings Rig.comm 100).
Proof.
  assert (@Collect Z Rig.intFloat Rig.asciiStrings collector.New Rig.driver 0
            Rig.comm = (Rig.marked, inr Rig.col)) as Hcol
    by (vm_compute; reflexivity).
  assert (100%N ∈ map collector.PID (collector.Processes (Snap Rig.col)))
    as Hpid by left.
  split; [exact Hcol|]. split; [exact Hpid|].
  exact (proj1 (@collected_names Z Rig.intFloat Rig.asciiStrings
                  collector.New Rig.marked Rig.driver 0 Rig.comm Rig.col
                  100%N Hcol) Hpid).
Defined.

Lemma collected_marks_witness :
  @Collect Z Rig.intFloat Rig.asciiStrings collector.New Rig.driver 0 Rig.comm
  = (Rig.marked, inr Rig.col) ∧
  (mark collector.New 0 ≤ mark Rig.marked 0)%N.
Proof.
  assert (@Collect Z Rig.intFloat Rig.asciiStrings collector.New Rig.driver 0
            Rig.comm = (Rig.marked, inr Rig.col)) as Hcol
    by (vm_compute; reflexivity).
  split; [exact Hcol|].
  exact (proj1 (@collected_marks Z Rig.intFloat Rig.asciiStrings
                  collector.New Rig.marked Rig.driver 0 Rig.comm
                  (inr Rig.col) 0 Hcol)).
Defined.

Lemma collected_keys_distinct_witness :
  @Collect Z Rig.intFloat Rig.asciiStrings collector.New Rig.driver 0 Rig.comm
  = (Rig.marked, inr Rig.col) ∧
  (∀ i, i ∈ reported Rig.driver → NoDup (holdersOf Rig.driver i)) ∧
  NoDup (keys (collector.Processes (Snap Rig.col))).
Proof.
  assert (@Collect Z Rig.intFloat Rig.asciiStrings collector.New Rig.driver 0
            Rig.comm = (Rig.marked, inr Rig.col)) as Hcol
    by (vm_compute; reflexivity).
  assert (∀ i, i ∈ reported Rig.driver → NoDup (holdersOf Rig.driver i))
    as Hholders.
  { intros i Hi.
    assert (reported Rig.driver = [0]) as Hrep by (vm_compute; reflexivity).
    rewrite Hrep in Hi. apply list_elem_of_singleton in Hi as ->.
    apply (bool_decide_unpack _). vm_compute. exact I. }
  split; [exact Hcol|]. split; [exact Hholders|].
  exact (proj1 (@collected_keys_distinct Z Rig.intFloat Rig.asciiStrings
                  collector.New Rig.marked Rig.driver 0 Rig.comm Rig.col
                  NewTracker Hcol Hholders)).
Defined.

Lemma collected_view_names_witness :
  @Collect Z Rig.intFloat Rig.asciiStrings collector.New Rig.driver 0 Rig.comm
  = (Rig.marked, inr Rig.col) ∧
  ∃ v, v ∈ (Update NewTracker (Snap Rig.col)).2 ∧
       ProcessIdleState.PID v = 200%N ∧
       ProcessIdleState.ProcessName v
       = @readProcessName Rig.asciiStrings Rig.comm 200.
Proof.
  assert (@Collect Z Rig.intFloat Rig.asciiStrings collector.New Rig.driver 0
            Rig.comm = (Rig.marked, inr Rig.col)) as Hcol
    by (vm_compute; reflexivity).
  split; [exact Hcol|].
  assert (∃ v, (Update NewTracker (Snap Rig.col)).2 !! 1%nat = Some v ∧
               ProcessIdleState.PID v = 200%N) as (v & Hv & Hpid).
  { eexists. split; [vm_compute; reflexivity|reflexivity]. }
  assert (v ∈ (Update NewTracker (Snap Rig.col)).2) as Hin
    by (apply list_elem_of_lookup; by exists 1%nat).
  exists v. split; [exact Hin|]. split; [exact Hpid|].
  rewrite <- Hpid.
  exact (proj1 (@collected_view_names Z Rig.intFloat Rig.asciiStrings
                  collector.New Rig.marked Rig.driver 0 Rig.comm Rig.col
                  NewTracker v Hcol Hin)).
Defined.

(** * Package exporter *)

Import exporter Metrics.

(** ** Keys and label values *)

Lemma app_String a s t : (String a s +:+ t)%string = String a (s +:+ t)%string.
Proof. done. Qed.

Lemma app_empty t : (EmptyString +:+ t)%string = t.
Proof. done. Qed.

Lemma length_app s t :
  String.length (s +:+ t)%string = (String.length s + String.length t)%nat.
Proof. induction s as [|a s IH]; [done|]. rewrite app_String. cbn. by rewrite IH. Qed.

Lemma hasNul_uint d : hasNul (NilEmpty.string_of_uint d) = false.
Proof. induction d; cbn; done. Qed.

Lemma hasNul_Itoa i : hasNul (Itoa i) = false.
Proof.
  unfold Itoa. destruct (Z.to_int i) as [d|d]; cbn; apply hasNul_uint.
Qed.

Lemma hasNul_FormatUint n : hasNul (FormatUint n) = false.
Proof. apply hasNul_uint. Qed.

Lemma Itoa_inj i j : Itoa i = Itoa j → i = j.
Proof.
  unfold Itoa. intros Heq. apply DecimalZ.to_int_inj.
  assert (Some (Z.to_int i) = Some (Z.to_int j)) as Hsome
    by (rewrite <- !NilEmpty.isi; by rewrite Heq).
  by injection Hsome.
Qed.

Lemma FormatUint_inj n m : FormatUint n = FormatUint m → n = m.
Proof.
  unfold FormatUint. intros Heq. apply DecimalN.Unsigned.to_uint_inj.
  assert (Some (N.to_uint n) = Some (N.to_uint m)) as Hsome
    by (rewrite <- !NilEmpty.usu; by rewrite Heq).
  by injection Hsome.
Qed.

Lemma processLabels_viewKey ps ps' :
  processLabels ps = processLabels ps' → viewKey ps = viewKey ps'.
Proof.
  unfold processLabels, viewKey. intros Heq. injection Heq as Hg Hp _.
  by rewrite (Itoa_inj _ _ Hg), (FormatUint_inj _ _ Hp).
Qed.

Lemma prefix_empty s : String.prefix EmptyString s = true.
Proof. by destruct s. Qed.

Lemma prefix_nul x s : String.prefix nul (String x s) = Ascii.eqb x Ascii.zero.
Proof.
  unfold nul. cbn [String.prefix].
  destruct (Ascii.ascii_dec Ascii.zero x) as [<-|Hne].
  - by rewrite prefix_empty.
  - symmetry. apply Ascii.eqb_neq. congruence.
Qed.

Lemma cut_nul_String x s :
  cut nul (String x s)
  = if Ascii.eqb x Ascii.zero then Some (EmptyString, s)
    else match cut nul s with
         | Some (before, after) => Some (String x before, after)
         | None => None
         end.
Proof.
  change (cut nul (String x s))
    with (if String.prefix nul (String x s)
          then Some (EmptyString, skip (String.length nul) (String x s))
          else match cut nul s with
               | Some (before, after) => Some (String x before, after)
               | None => None
               end).
  by rewrite prefix_nul.
Qed.

(** Cutting at the first byte zero. *)
Lemma cut_nul a rest :
  hasNul a = false → cut nul (a +:+ nul +:+ rest)%string = Some (a, rest).
Proof.
  induction a as [|x a IH]; intros Ha.
  - rewrite app_empty. unfold nul at 2. rewrite app_String, app_empty.
    by rewrite cut_nul_String.
  - cbn in Ha. apply orb_false_iff in Ha as [Hx Ha].
    by rewrite app_String, cut_nul_String, Hx, (IH Ha).
Qed.

Lemma cut_nul_inv s before after :
  cut nul s = Some (before, after) →
  s = (before +:+ nul +:+ after)%string ∧ hasNul before = false.
Proof.
  revert before. induction s as [|x s IH]; intros before Hcut; [done|].
  rewrite cut_nul_String in Hcut.
  destruct (Ascii.eqb x Ascii.zero) eqn:Hx.
  - injection Hcut as <- <-. apply Ascii.eqb_eq in Hx as ->. done.
  - destruct (cut nul s) as [[b a]|] eqn:Hs; [|done].
    injection Hcut as <- <-. destruct (IH b eq_refl) as [-> Hb].
    split; [done|]. cbn. by rewrite Hx, Hb.
Qed.

Lemma decode_keyOfLabels ps :
  decode (keyOfLabels (processLabels ps)) = Some (processLabels ps).
Proof.
  unfold decode, SplitN, keyOfLabels, processLabels. cbn [fst snd].
  rewrite Nat.min_l.
  - cbn [splitLoop]. rewrite cut_nul by apply hasNul_Itoa.
    by rewrite cut_nul by apply hasNul_FormatUint.
  - rewrite !length_app. change (String.length nul) with 1%nat. lia.
Qed.

Lemma decode_inv key l : decode key = Some l → key = keyOfLabels l.
Proof.
  unfold decode, SplitN. intros Hdec.
  destruct (Nat.min 2 (String.length key)) as [|[|[|n]]] eqn:Hmin;
    cbn [splitLoop] in Hdec; [done| | |lia].
  - destruct (cut nul key) as [[b a]|]; done.
  - destruct (cut nul key) as [[g rest]|] eqn:Hg; [|done].
    destruct (cut nul rest) as [[p n]|] eqn:Hp; [|done].
    injection Hdec as <-.
    apply cut_nul_inv in Hg as [-> _]. by apply cut_nul_inv in Hp as [-> _].
Qed.

(** X18. The key the exporter keeps for a series splits back into the
    three label values it was made from, whatever bytes the process name
    holds; and a key that splits into three parts is the key made from
    them.  So the clean-up finds the labels of every series it has set. *)
Theorem key_round_trip (ps : ProcessIdleState.t) (key : string)
    (l : string * string * string) :
  decode (keyOfLabels (processLabels ps)) = Some (processLabels ps) ∧
  (decode key = Some l → key = keyOfLabels l).
Proof.
  split.
  - apply decode_keyOfLabels.
  - apply decode_inv.
Qed.

(** ** The loops of [UpdateMetrics] *)

Section metrics_loops.

Context {F : Type} `{!Float64 F}.

Lemma processComputeUtil_vector :
  processVector processComputeUtil
    (fun ps => ofUint (ProcessIdleState.SmUtil ps)).
Proof. by repeat split. Qed.

Lemma processMemUsed_vector :
  processVector processMemUsed
    (fun ps => ofUint (ProcessIdleState.UsedMemory ps)).
Proof. by repeat split. Qed.

Lemma processIdleSecs_vector :
  processVector processIdleSecs
    (fun ps => seconds (ProcessIdleState.IdleDuration ps)).
Proof. by repeat split. Qed.

Lemma processIdleMem_vector :
  processVector processIdleMem
    (fun ps => ofUint (ProcessIdleState.IdleMemory ps)).
Proof. by repeat split. Qed.

Lemma currentKeys_processes (a : tally) states :
  currentKeys (foldl setProcess a states) = keySet states ∪ currentKeys a.
Proof.
  induction states as [|ps states IH] using rev_ind.
  - unfold keySet. cbn. by rewrite (left_id_L ∅ (∪)).
  - rewrite foldl_app. cbn [foldl setProcess currentKeys]. rewrite IH.
    unfold keySet. rewrite map_app, list_to_set_app_L. cbn.
    rewrite (right_id_L ∅ (∪)). apply set_eq. intros z.
    rewrite !elem_of_union. tauto.
Qed.

Section vector.

Context (pick : Exporter F → gmap (string * string * string) F)
        (val : ProcessIdleState.t → F) (Hvec : processVector pick val).

Lemma pick_devices e devs : pick (foldl setDevice e devs) = pick e.
Proof.
  destruct Hvec as (Hdev & _ & _ & _ & _).
  induction devs as [|d devs IH] using rev_ind; [done|].
  by rewrite foldl_app; cbn; rewrite Hdev.
Qed.

Lemma pick_idleTotals byGPU e devs :
  pick (foldl (setIdleTotal byGPU) e devs) = pick e.
Proof.
  destruct Hvec as (_ & _ & Htot & _ & _).
  induction devs as [|d devs IH] using rev_ind; [done|].
  by rewrite foldl_app; cbn; rewrite Htot.
Qed.

(** After the loop over the views a series holds the value of the last
    view with its labels, or what it held before. *)
Lemma pick_processes_absent a states l :
  (∀ ps, ps ∈ states → processLabels ps ≠ l) →
  pick (gauges (foldl setProcess a states)) !! l = pick (gauges a) !! l.
Proof.
  destruct Hvec as (_ & Hproc & _ & _ & _).
  induction states as [|ps states IH] using rev_ind; intros Hl; [done|].
  rewrite foldl_app. cbn [foldl]. rewrite Hproc, lookup_insert_ne.
  - apply IH. intros ps' Hps'. apply Hl, elem_of_app. by left.
  - apply Hl, elem_of_app. right. by apply list_elem_of_singleton.
Qed.

Lemma pick_processes_last a before ps after :
  (∀ ps', ps' ∈ after → processLabels ps' ≠ processLabels ps) →
  pick (gauges (foldl setProcess a (before ++ ps :: after)))
    !! processLabels ps
  = Some (val ps).
Proof.
  intros Hafter. rewrite foldl_app. cbn [foldl].
  rewrite pick_processes_absent by done.
  destruct Hvec as (_ & Hproc & _ & _ & _). by rewrite Hproc, lookup_insert_eq.
Qed.

Lemma dom_pick_processes a states :
  dom (pick (gauges (foldl setProcess a states)))
  = labelSet states ∪ dom (pick (gauges a)).
Proof.
  destruct Hvec as (_ & Hproc & _ & _ & _).
  induction states as [|ps states IH] using rev_ind.
  - unfold labelSet. cbn. by rewrite (left_id_L ∅ (∪)).
  - rewrite foldl_app. cbn [foldl]. rewrite Hproc, dom_insert_L, IH.
    unfold labelSet. rewrite map_app, list_to_set_app_L. cbn.
    rewrite (right_id_L ∅ (∪)). apply set_eq. intros z.
    rewrite !elem_of_union. tauto.
Qed.

Lemma pick_dropStale current key r l :
  pick (dropStale current key r) !! l
  = if decide ((key ∉ current) ∧ decode key = Some l)
    then None else pick r !! l.
Proof.
  destruct Hvec as (_ & _ & _ & Hdel & _). unfold dropStale, decode.
  case_bool_decide as Hcur.
  - rewrite decide_False; [done|]. by intros [? _].
  - destruct (SplitN key nul 3) as [|g [|p [|n [|? ?]]]];
      try (rewrite decide_False; [done|by intros [_ ?]]).
    rewrite Hdel.
    destruct (decide ((g, p, n) = l)) as [<-|Hne].
    + rewrite lookup_delete_eq. by rewrite decide_True.
    + rewrite lookup_delete_ne by done.
      rewrite decide_False; [done|]. intros [_ Heq]. congruence.
Qed.

(** The clean-up deletes the series whose labels it reads back from a key
    of the cycle before that is not a key of this cycle, and no other. *)
Lemma pick_cleanup (current prev : gset string) e l :
  ((∃ key, key ∈ prev ∧ (key ∉ current) ∧ decode key = Some l) →
   pick (set_fold (dropStale current) e prev) !! l = None) ∧
  (¬ (∃ key, key ∈ prev ∧ (key ∉ current) ∧ decode key = Some l) →
   pick (set_fold (dropStale current) e prev) !! l = pick e !! l).
Proof.
  apply (set_fold_ind_L
           (fun r X =>
              ((∃ key, key ∈ X ∧ (key ∉ current) ∧ decode key = Some l) →
               pick r !! l = None) ∧
              (¬ (∃ key, key ∈ X ∧ (key ∉ current) ∧ decode key = Some l) →
               pick r !! l = pick e !! l))).
  - split; [|done]. intros (key & Hin & _).
    by apply not_elem_of_empty in Hin.
  - intros key X r Hkey [IHdel IHkeep]. rewrite pick_dropStale.
    destruct (decide ((key ∉ current) ∧ decode key = Some l)) as [Hthis|Hthis].
    + split; [done|]. intros Hno. destruct Hno. exists key.
      split; [|done]. apply elem_of_union. left. by apply elem_of_singleton.
    + split.
      * intros (key0 & Hin & Hc & Hd). apply IHdel. exists key0.
        split; [|done]. apply elem_of_union in Hin as [Hin|Hin]; [|done].
        apply elem_of_singleton in Hin as ->. by destruct Hthis.
      * intros Hno. apply IHkeep. intros (key0 & Hin & Hc & Hd).
        apply Hno. exists key0. split; [|done].
        apply elem_of_union. by right.
Qed.

(** The clean-up only deletes. *)
Lemma pick_cleanup_sub (current prev : gset string) e l v :
  pick (set_fold (dropStale current) e prev) !! l = Some v →
  pick e !! l = Some v.
Proof.
  apply (set_fold_ind_L
           (fun r (X : gset string) =>
              pick r !! l = Some v → pick e !! l = Some v)); [done|].
  intros key X r _ IH. rewrite pick_dropStale. case_decide; [done|exact IH].
Qed.

(** A series of [UpdateMetrics], loop after loop. *)
Lemma pick_UpdateMetrics e snap states :
  pick (UpdateMetrics e snap states)
  = pick (set_fold (dropStale (keySet states))
            (foldl (setIdleTotal
                      (idleMemByGPU
                         (foldl setProcess
                            {| gauges := foldl setDevice e (Devices snap);
                               currentKeys := ∅; idleMemByGPU := ∅ |}
                            states)))
               (gauges
                  (foldl setProcess
                     {| gauges := foldl setDevice e (Devices snap);
                        currentKeys := ∅; idleMemByGPU := ∅ |}
                     states))
               (Devices snap))
            (prevProcessKeys e)).
Proof.
  destruct Hvec as (_ & _ & _ & _ & Hkeys).
  unfold UpdateMetrics. cbv zeta. rewrite Hkeys, currentKeys_processes.
  cbn [currentKeys]. by rewrite (right_id_L ∅ (∪)).
Qed.

(** A series of a view of the cycle is not cleaned up: a key that reads
    back as its labels is its key, a key of the cycle. *)
Lemma current_not_stale (prev : gset string) states ps :
  ps ∈ states →
  ¬ (∃ key, key ∈ prev ∧ (key ∉ keySet states) ∧
            decode key = Some (processLabels ps)).
Proof.
  intros Hps (key & _ & Hcur & Hdec). apply Hcur.
  rewrite (decode_inv _ _ Hdec). unfold keySet.
  apply elem_of_list_to_set, list_elem_of_fmap. by exists ps.
Qed.

Lemma elem_of_labelSet states l :
  l ∈ labelSet states ↔ ∃ ps, ps ∈ states ∧ l = processLabels ps.
Proof.
  unfold labelSet. rewrite elem_of_list_to_set, list_elem_of_fmap.
  split; intros (ps & ? & ?); by exists ps.
Qed.

Lemma elem_of_keySet states key :
  key ∈ keySet states ↔
  ∃ ps, ps ∈ states ∧ key = keyOfLabels (processLabels ps).
Proof.
  unfold keySet. rewrite elem_of_list_to_set, list_elem_of_fmap.
  split; intros (ps & ? & ?); by exists ps.
Qed.

(** One cycle brings a vector in step with its views. *)
Lemma dom_pick_UpdateMetrics e snap states states0 :
  prevProcessKeys e = keySet states0 →
  dom (pick e) = labelSet states0 →
  dom (pick (UpdateMetrics e snap states)) = labelSet states.
Proof.
  intros Hprev Hdom. apply set_eq. intros l.
  rewrite elem_of_dom, pick_UpdateMetrics, Hprev.
  set (a := foldl setProcess _ states).
  set (e2 := foldl (setIdleTotal _) _ _).
  assert (dom (pick e2) = labelSet states ∪ labelSet states0) as Hdom2.
  { subst e2 a. by rewrite pick_idleTotals, dom_pick_processes; cbn;
      rewrite pick_devices, Hdom. }
  split.
  - intros [v Hv]. pose proof (pick_cleanup_sub _ _ _ _ _ Hv) as Hv2.
    assert (l ∈ dom (pick e2)) as Hl by (apply elem_of_dom; by eexists).
    rewrite Hdom2 in Hl. apply elem_of_union in Hl as [Hl|Hl]; [done|].
    destruct (decide (l ∈ labelSet states)) as [|Hout]; [done|].
    apply elem_of_labelSet in Hl as (ps0 & Hps0 & ->).
    rewrite (proj1 (pick_cleanup (keySet states) (keySet states0) e2
                      (processLabels ps0))) in Hv; [done|].
    exists (keyOfLabels (processLabels ps0)).
    split; [apply elem_of_keySet; by exists ps0|].
    split; [|apply decode_keyOfLabels].
    intros Hin. apply elem_of_keySet in Hin as (ps & Hps & Hkey).
    apply Hout, elem_of_labelSet. exists ps. split; [done|].
    assert (Some (processLabels ps0) = Some (processLabels ps)) as Hsome
      by (by rewrite <- !decode_keyOfLabels, Hkey).
    congruence.
  - intros Hl. pose proof Hl as Hl'.
    apply elem_of_labelSet in Hl' as (ps & Hps & ->).
    rewrite (proj2 (pick_cleanup (keySet states) (keySet states0) e2
                      (processLabels ps)))
      by by apply current_not_stale.
    apply elem_of_dom. rewrite Hdom2. apply elem_of_union. by left.
Qed.

(** The series of a view holds the value of the view, when no two views
    of the cycle are of one key. *)
Lemma pick_UpdateMetrics_value e snap states ps :
  NoDup (map viewKey states) →
  ps ∈ states →
  pick (UpdateMetrics e snap states) !! processLabels ps = Some (val ps).
Proof.
  intros Hnd Hps. rewrite pick_UpdateMetrics.
  rewrite (proj2 (pick_cleanup _ _ _ _)) by by apply current_not_stale.
  rewrite pick_idleTotals.
  apply list_elem_of_split in Hps as (before & after & ->).
  apply pick_processes_last. intros ps' Hps' Hlabels.
  apply processLabels_viewKey in Hlabels.
  rewrite map_app in Hnd. apply NoDup_app in Hnd as (_ & _ & Hnd).
  cbn in Hnd. apply NoDup_cons in Hnd as [Hnotin _]. apply Hnotin.
  rewrite <- Hlabels. apply list_elem_of_fmap. by exists ps'.
Qed.

End vector.

End metrics_loops.

(** ** The series of the processes *)

Section process_series.

Context {F : Type} `{!Float64 F}.

Lemma inSync_New : inSync (F:=F) New [].
Proof.
  unfold inSync, seriesAre, keySet, labelSet. cbn. by rewrite !dom_empty_L.
Qed.

Lemma inSync_UpdateMetrics (e : Exporter F) snap states states0 :
  inSync e states0 → inSync (UpdateMetrics e snap states) states.
Proof.
  intros (Hprev & Hu & Hm & Hs & Hi). split.
  - unfold UpdateMetrics. cbv zeta. cbn [withKeys prevProcessKeys].
    rewrite currentKeys_processes. cbn [currentKeys].
    by rewrite (right_id_L ∅ (∪)).
  - repeat split.
    + by eapply (dom_pick_UpdateMetrics _ _ processComputeUtil_vector).
    + by eapply (dom_pick_UpdateMetrics _ _ processMemUsed_vector).
    + by eapply (dom_pick_UpdateMetrics _ _ processIdleSecs_vector).
    + by eapply (dom_pick_UpdateMetrics _ _ processIdleMem_vector).
Qed.

Lemma inSync_run cycles :
  ∃ states0, inSync (runMetrics (F:=F) New cycles) states0.
Proof.
  induction cycles as [|[snap states] cycles [states0 IH]] using rev_ind.
  - exists []. apply inSync_New.
  - exists states. unfold runMetrics in *. rewrite foldl_app. cbn.
    by eapply inSync_UpdateMetrics.
Qed.



End process_series.

(** ** The series of the devices and the idle memory of a device *)

Section device_series.

Context {F : Type} `{!Float64 F}.

Lemma deviceUtil_vector :
  deviceVector (F:=F) deviceUtil (fun d => ofUint (Utilization d)).
Proof. by repeat split. Qed.

Lemma deviceMemUsed_vector :
  deviceVector (F:=F) deviceMemUsed (fun d => ofUint (MemoryUsed d)).
Proof. by repeat split. Qed.

Lemma deviceMemTotal_vector :
  deviceVector (F:=F) deviceMemTotal (fun d => ofUint (MemoryTotal d)).
Proof. by repeat split. Qed.

Lemma devicePower_vector : deviceVector (F:=F) devicePower PowerWatts.
Proof. by repeat split. Qed.

Lemma deviceTemp_vector :
  deviceVector (F:=F) deviceTemp (fun d => ofUint (TempCelsius d)).
Proof. by repeat split. Qed.

Lemma deviceVector_onlyGrows get val :
  deviceVector (F:=F) get val → onlyGrows get.
Proof.
  intros (Hdev & Hproc & Hidle & Hdel & Hkeys). repeat split; try done.
  - intros e d. rewrite Hdev, dom_insert. set_solver.
  - intros byGPU e d. by rewrite Hidle.
Qed.

Lemma idleMemTotal_onlyGrows : onlyGrows (F:=F) idleMemTotal.
Proof.
  repeat split; try done. intros byGPU e d. cbn. rewrite dom_insert.
  set_solver.
Qed.

Section grows.

Context {K : Type} `{Countable K} (get : Exporter F → gmap K F).
Context (Hgrows : onlyGrows get).

Lemma get_processes a states :
  get (gauges (foldl setProcess a states)) = get (gauges a).
Proof.
  destruct Hgrows as (_ & Hproc & _ & _ & _).
  induction states as [|ps states IH] using rev_ind; [done|].
  rewrite foldl_app. cbn [foldl]. by rewrite Hproc.
Qed.

Lemma get_cleanup current e (prev : gset string) :
  get (set_fold (dropStale current) e prev) = get e.
Proof.
  destruct Hgrows as (_ & _ & _ & Hdel & _).
  apply (set_fold_ind_L (fun r _ => get r = get e)); [done|].
  intros key X r _ IH. unfold dropStale. case_bool_decide; [done|].
  destruct (SplitN key nul 3) as [|g [|p [|n [|? ?]]]]; try done.
  by rewrite Hdel.
Qed.

Lemma get_UpdateMetrics e snap states :
  get (UpdateMetrics e snap states)
  = get (foldl
           (setIdleTotal
              (idleMemByGPU
                 (foldl setProcess
                    {| gauges := foldl setDevice e (Devices snap);
                       currentKeys := ∅; idleMemByGPU := ∅ |} states)))
           (gauges
              (foldl setProcess
                 {| gauges := foldl setDevice e (Devices snap);
                    currentKeys := ∅; idleMemByGPU := ∅ |} states))
           (Devices snap)).
Proof.
  destruct Hgrows as (_ & _ & _ & _ & Hkeys).
  unfold UpdateMetrics. cbv zeta. by rewrite Hkeys, get_cleanup.
Qed.

Lemma dom_get_loop {A : Type} (step : Exporter F → A → Exporter F)
    (devs : list A) e :
  (∀ e d, dom (get e) ⊆ dom (get (step e d))) →
  dom (get e) ⊆ dom (get (foldl step e devs)).
Proof.
  intros Hstep. induction devs as [|d devs IH] using rev_ind; [done|].
  rewrite foldl_app. cbn [foldl]. etrans; [apply IH|apply Hstep].
Qed.

Lemma dom_get_UpdateMetrics e snap states :
  dom (get e) ⊆ dom (get (UpdateMetrics e snap states)).
Proof.
  rewrite get_UpdateMetrics.
  destruct Hgrows as (Hdev & _ & Hidle & _ & _).
  etrans; [|apply dom_get_loop, Hidle]. rewrite get_processes. cbn [gauges].
  by apply dom_get_loop.
Qed.

Lemma dom_get_run e cycles : dom (get e) ⊆ dom (get (runMetrics e cycles)).
Proof.
  unfold runMetrics.
  induction cycles as [|[snap states] cycles IH] using rev_ind; [done|].
  rewrite foldl_app. cbn [foldl]. etrans; [apply IH|].
  apply dom_get_UpdateMetrics.
Qed.

End grows.

Section device_vector.

Context (get : Exporter F → gmap (string * string * string) F).
Context (val : DeviceInfo F → F) (Hvec : deviceVector get val).

Lemma get_devices_absent (devs : list (DeviceInfo F)) e l :
  (∀ d, d ∈ devs → deviceLabels d ≠ l) →
  get (foldl setDevice e devs) !! l = get e !! l.
Proof.
  destruct Hvec as (Hdev & _). intros Habs.
  induction devs as [|d devs IH] using rev_ind; [done|].
  rewrite foldl_app. cbn [foldl]. rewrite Hdev.
  rewrite lookup_insert_ne.
  - apply IH. intros d' Hd'. apply Habs. set_solver.
  - apply Habs. set_solver.
Qed.

Lemma get_devices_mem (devs : list (DeviceInfo F)) e d :
  d ∈ devs → deviceLabels d ∈ dom (get (foldl setDevice e devs)).
Proof.
  destruct Hvec as (Hdev & _). intros Hd.
  induction devs as [|d' devs IH] using rev_ind; [by apply elem_of_nil in Hd|].
  rewrite foldl_app. cbn [foldl]. rewrite Hdev, dom_insert.
  apply elem_of_app in Hd as [Hd|Hd].
  - apply elem_of_union_r. by apply IH.
  - apply list_elem_of_singleton in Hd as ->. set_solver.
Qed.

Lemma get_devices_value (devs : list (DeviceInfo F)) e d :
  NoDup (map deviceLabels devs) → d ∈ devs →
  get (foldl setDevice e devs) !! deviceLabels d = Some (val d).
Proof.
  destruct Hvec as (Hdev & _). intros Hnd Hd.
  apply list_elem_of_split in Hd as (before & after & ->).
  rewrite foldl_app. cbn [foldl].
  rewrite get_devices_absent.
  - by rewrite Hdev, lookup_insert_eq.
  - intros d' Hd' Heq. rewrite map_app in Hnd. cbn in Hnd.
    apply NoDup_app in Hnd as (_ & _ & Hnd).
    apply NoDup_cons in Hnd as [Hnot _]. apply Hnot.
    rewrite <- Heq. apply list_elem_of_fmap. by exists d'.
Qed.

Lemma get_UpdateMetrics_devices e snap states :
  get (UpdateMetrics e snap states) = get (foldl setDevice e (Devices snap)).
Proof.
  pose proof (deviceVector_onlyGrows _ _ Hvec) as Hgrows.
  rewrite (get_UpdateMetrics get Hgrows).
  destruct Hvec as (_ & _ & Hidle & _).
  set (a := foldl setProcess _ states).
  assert (Hloop : ∀ byGPU devs r,
    get (foldl (setIdleTotal byGPU) r devs) = get r).
  { intros byGPU devs. induction devs as [|d devs IH] using rev_ind; [done|].
    intros r. rewrite foldl_app. cbn [foldl]. by rewrite Hidle. }
  rewrite Hloop. unfold a. by rewrite (get_processes get Hgrows).
Qed.

End device_vector.

Lemma idleBytes_snoc g states ps :
  idleBytes g (states ++ [ps])
  = if decide (ProcessIdleState.GPU ps = g)
    then (idleBytes g states + ProcessIdleState.IdleMemory ps)%N
    else idleBytes g states.
Proof.
  unfold idleBytes. rewrite filter_app, map_app, foldr_app.
  assert (Hsum : ∀ (xs : list N) (n : N),
    foldr N.add n xs = (foldr N.add 0 xs + n)%N).
  { induction xs as [|x xs IH]; intros n; cbn; [lia|]. rewrite IH. lia. }
  rewrite Hsum. destruct (decide (ProcessIdleState.GPU ps = g)) as [Hg|Hg].
  - rewrite filter_cons_True, filter_nil by done. cbn. lia.
  - rewrite filter_cons_False, filter_nil by done. cbn. lia.
Qed.

Lemma idleMemByGPU_processes (a : tally (F:=F)) states g :
  (default 0 (idleMemByGPU a !! g) < 2 ^ 64)%N →
  default 0%N (idleMemByGPU (foldl setProcess a states) !! g)
  = ((default 0 (idleMemByGPU a !! g) + idleBytes g states) mod 2 ^ 64)%N.
Proof.
  intros Hinit. induction states as [|ps states IH] using rev_ind.
  - cbn. unfold idleBytes. cbn. rewrite N.add_0_r.
    by rewrite N.mod_small.
  - rewrite foldl_app. cbn [foldl]. rewrite idleBytes_snoc.
    unfold setProcess at 1. cbn [idleMemByGPU].
    destruct (decide (ProcessIdleState.GPU ps = g)) as [Hg|Hg].
    + rewrite Hg, lookup_insert_eq. cbn [default]. rewrite IH.
      rewrite N.Div0.add_mod_idemp_l. by rewrite N.add_assoc.
    + by rewrite lookup_insert_ne.
Qed.

Lemma idleMemTotal_idleTotals byGPU (devs : list (DeviceInfo F)) e d :
  d ∈ devs →
  idleMemTotal (foldl (setIdleTotal byGPU) e devs) !! Itoa (Index d)
  = Some (ofUint (default 0%N (byGPU !! Index d))).
Proof.
  intros Hd.
  induction devs as [|d' devs IH] using rev_ind; [by apply elem_of_nil in Hd|].
  rewrite foldl_app. cbn [foldl setIdleTotal idleMemTotal].
  destruct (decide (Itoa (Index d') = Itoa (Index d))) as [Heq|Hne].
  - rewrite Heq, lookup_insert_eq. by apply Itoa_inj in Heq as ->.
  - rewrite lookup_insert_ne by done. apply IH.
    apply elem_of_app in Hd as [Hd|Hd]; [done|].
    apply list_elem_of_singleton in Hd. by subst.
Qed.




End device_series.

(** * Package main: the polling cycle *)

Import main.

Section poll_cycle.

Context {F : Type} `{!Float64 F} `{!Strings}.

Lemma Update_labels c c' drv now comm (col : Collected F) (t : Tracker) :
  Collect c drv now comm = (c', inr col) →
  map processLabels (Update t (Snap col)).2
  = map (sampleLabels comm) (collector.Processes (Snap col)).
Proof.
  intros Hcol. apply list_eq. intros i. rewrite !list_lookup_fmap.
  destruct (collector.Processes (Snap col) !! i) as [p|] eqn:Hp.
  - rewrite (Update_view t (Snap col) i p Hp). cbn.
    unfold processLabels, sampleLabels. cbn.
    destruct (Collect_inr _ _ _ _ _ _ Hcol) as (_ & _ & _ & _ & -> & _).
    rewrite readNames_lookup, decide_True; [done|].
    apply list_elem_of_fmap. exists p. split; [done|].
    apply list_elem_of_lookup. by exists i.
  - apply lookup_ge_None in Hp.
    rewrite (proj2 (lookup_ge_None _ _)); [done|].
    by rewrite Update_length.
Qed.


End poll_cycle.

(** ** The cycle of the example driver, exported *)

Lemma process_name_bounds_witness :
  Rig.comm 200 = None ∧
  @readProcessName Rig.asciiStrings Rig.comm 200 = "unknown"%string.
Proof.
  assert (Rig.comm 200 = None) as Hnone by reflexivity.
  split; [exact Hnone|].
  exact (proj2 (proj2 (@process_name_bounds Rig.asciiStrings Rig.comm 200))
           Hnone).
Defined.

Lemma key_round_trip_witness :
  ∃ key l, decode key = Some l ∧ key = keyOfLabels l.
Proof.
  exists (keyOfLabels ("0", "100", "python")%string).
  exists ("0", "100", "python")%string.
  assert (decode (keyOfLabels ("0", "100", "python")%string)
          = Some ("0", "100", "python")%string) as Hdec
    by (vm_compute; reflexivity).
  split; [exact Hdec|].
  exact (proj2 (key_round_trip Example.view3 _ _) Hdec).
Defined.






(** ** The devices of a collected snapshot, exported *)

Section collected_exported.

Context {F : Type} `{!Float64 F} `{!Strings}.

Lemma NoDup_deviceLabels c c' drv now comm (col : Collected F) :
  Collect c drv now comm = (c', inr col) →
  NoDup (map deviceLabels (Devices col)).
Proof.
  intros Hcol. destruct (Collect_inr _ _ _ _ _ _ Hcol) as (_ & -> & _).
  apply (NoDup_fmap_1 (fun l : string * string * string => l.1.1)).
  rewrite <- !list_fmap_compose.
  apply (NoDup_fmap_2_strong Itoa (reported drv)).
  - intros i j _ _. apply Itoa_inj.
  - apply NoDup_reported.
Qed.


End collected_exported.

